(** * bountyscan: the paginated solar-system collector

    A shallow embedding of [solar_systems_scrape.py] and the properties of
    its fetch-accumulate-save loop.

    The network is a script: the list of replies the server gives to the
    successive GET requests, in the order the requests are issued.  The file
    system is one value saying how the final write behaves.  Everything the
    program does to the outside world is recorded in a trace of events. *)

From Stdlib Require Import ZArith NArith List Bool Lia String Ascii.
From Stdlib Require DecimalFacts DecimalZ.
Import ListNotations.
Local Open Scope Z_scope.

(** ** Python values *)

(** A Python [str] is a sequence of code points. *)
Definition pystr : Type := list N.

Definition py (s : string) : pystr := map N_of_ascii (list_ascii_of_string s).
Arguments py s%_string.

Definition pystr_eq_dec (a b : pystr) : {a = b} + {a <> b} :=
  list_eq_dec N.eq_dec a b.

(** What [response.json()] can return.  Numbers are Python ints; JSON numbers
    with a fraction or an exponent (Python floats) are not represented.  A
    [JObj] is a parsed dict: lookup takes the first binding of a key. *)
#[warnings="-register-all"]
Inductive json : Type :=
| JNull
| JBool (b : bool)
| JInt (z : Z)
| JStr (s : pystr)
| JArr (items : list json)
| JObj (fields : list (pystr * json)).

(** The exceptions the program can meet.  The first three are subclasses of
    [requests.exceptions.RequestException]: what [requests.get] raises on a
    transport failure, what [raise_for_status] raises, and what
    [response.json()] raises on a body that is not JSON (requests 2.27 and
    later). *)
Inductive exn : Type :=
| ConnectionError
| HTTPError (status_code : Z)
| JSONDecodeError
| KeyError (key : pystr)
| TypeError
| ZeroDivisionError.

Definition is_RequestException (e : exn) : bool :=
  match e with
  | ConnectionError | HTTPError _ | JSONDecodeError => true
  | KeyError _ | TypeError | ZeroDivisionError => false
  end.

Inductive result (A : Type) : Type :=
| Ok (a : A)
| Raise (e : exn).
Arguments Ok {A} a.
Arguments Raise {A} e.

Definition and_then {A B} (r : result A) (k : A -> result B) : result B :=
  match r with
  | Ok a => k a
  | Raise e => Raise e
  end.

Notation "'let?' x ':=' r 'in' k" := (and_then r (fun x => k))
  (at level 10, x pattern, r at level 100, k at level 200).

Fixpoint lookup (k : pystr) (fields : list (pystr * json)) : option json :=
  match fields with
  | [] => None
  | (k', v) :: rest => if pystr_eq_dec k k' then Some v else lookup k rest
  end.

(** [x[k]] for a string key [k]. *)
Definition getitem (x : json) (k : pystr) : result json :=
  match x with
  | JObj fields =>
      match lookup k fields with
      | Some v => Ok v
      | None => Raise (KeyError k)
      end
  | _ => Raise TypeError
  end.

(** The values a [for] loop draws from [x]: the elements of a list, the keys
    of a dict, the characters of a string. *)
Definition iterate (x : json) : result (list json) :=
  match x with
  | JArr items => Ok items
  | JObj fields => Ok (map (fun kv => JStr (fst kv)) fields)
  | JStr s => Ok (map (fun c => JStr [c]) s)
  | _ => Raise TypeError
  end.

(** [bool] is a subclass of [int]: [True] and [False] count as 1 and 0. *)
Definition as_int (x : json) : result Z :=
  match x with
  | JInt z => Ok z
  | JBool b => Ok (if b then 1 else 0)
  | _ => Raise TypeError
  end.

Definition floordiv (a b : Z) : result Z :=
  if b =? 0 then Raise ZeroDivisionError else Ok (a / b).

(** ** The result mapping: an insertion-ordered dict *)

(** Keys as a dict tells them apart: [1 == True], so both are [KInt 1]. *)
Inductive pykey : Type :=
| KStr (s : pystr)
| KInt (z : Z)
| KNone.

Definition pykey_eq_dec (a b : pykey) : {a = b} + {a <> b}.
Proof.
  decide equality; [apply pystr_eq_dec | apply Z.eq_dec].
Defined.

(** Lists and dicts are unhashable. *)
Definition hash (x : json) : result pykey :=
  match x with
  | JStr s => Ok (KStr s)
  | JInt z => Ok (KInt z)
  | JBool b => Ok (KInt (if b then 1 else 0))
  | JNull => Ok KNone
  | JArr _ | JObj _ => Raise TypeError
  end.

Definition dict : Type := list (pykey * json).

(** [d[k] = v]: a key already present keeps its position. *)
Fixpoint dict_set (k : pykey) (v : json) (d : dict) : dict :=
  match d with
  | [] => [(k, v)]
  | (k', v') :: rest =>
      if pykey_eq_dec k k' then (k', v) :: rest
      else (k', v') :: dict_set k v rest
  end.

Fixpoint dict_get (k : pykey) (d : dict) : option json :=
  match d with
  | [] => None
  | (k', v) :: rest => if pykey_eq_dec k k' then Some v else dict_get k rest
  end.

Definition len {A} (l : list A) : Z := Z.of_nat (List.length l).

(** ** The outside world *)

(** The reply to one GET: no response at all, or a status code and a body
    ([None] when the body is not JSON). *)
Inductive reply : Type :=
| Unreachable
| Response (status_code : Z) (body : option json).

(** How the final write behaves: [open] raises [IOError], or the file is
    opened (and truncated) and [json.dump] raises [IOError], or all is well. *)
Inductive sink : Type :=
| SinkOk
| OpenFails
| DumpFails.

Inductive line : Type :=
| PFetchingInitial
| PData (data : json)
| PTotal (total : json)
| PLimit (lim : json)
| PEstimate (n : Z)
| PFirstBatch (n : Z)
| PFetchingBatch (batch off : Z)
| PProcessedBatch (batch n : Z)
| PCollected (n : Z)
| PBatchError (off : Z) (e : exn)
| PRetrying
| PInitialError (e : exn)
| PComplete (n : Z)
| PSaved (file : pystr)
| PSaveError
| PStarting
| PBaseUrl (url : pystr)
| PSuccess (n : Z)
| PSampleHeader
| PSample (name : pykey) (system_id : json)
| PEllipsis
| PFailed.

(** [Get url limit offset r]: a GET with these query parameters, answered by
    [r].  [Sleep ms]: [time.sleep], in milliseconds.  [OpenW]: the output file
    opened for writing.  [Dump file m]: [json.dump(m, f, indent=2,
    ensure_ascii=False)] completed on that file. *)
Inductive event : Type :=
| Print (l : line)
| Get (url : pystr) (lim off : Z) (r : reply)
| Sleep (ms : Z)
| OpenW (file : pystr)
| Dump (file : pystr) (m : dict).

(** ** Statements: state, trace and exceptions

    A statement runs from the current values of the variables, appends to the
    trace, and leaves the variables as they are at the point where it ends or
    raises. *)
Definition stmt (S A : Type) : Type := S -> list event * S * result A.

Definition ret {S A} (a : A) : stmt S A := fun s => ([], s, Ok a).

Definition bind {S A B} (m : stmt S A) (k : A -> stmt S B) : stmt S B :=
  fun s =>
    let '(ev, s1, r) := m s in
    match r with
    | Ok a => let '(ev', s2, r') := k a s1 in (ev ++ ev', s2, r')
    | Raise e => (ev, s1, Raise e)
    end.

Definition emit {S} (e : event) : stmt S unit := fun s => ([e], s, Ok tt).

Definition eval {S A} (r : result A) : stmt S A := fun s => ([], s, r).

Definition get {S} : stmt S S := fun s => ([], s, Ok s).

Definition modify {S} (f : S -> S) : stmt S unit := fun s => ([], f s, Ok tt).

(** [try: body except <catches> as e: handler e] *)
Definition try_except {S A} (body : stmt S A) (catches : exn -> bool)
    (handler : exn -> stmt S A) : stmt S A :=
  fun s =>
    let '(ev, s1, r) := body s in
    match r with
    | Ok a => (ev, s1, Ok a)
    | Raise e =>
        if catches e
        then let '(ev', s2, r') := handler e s1 in (ev ++ ev', s2, r')
        else (ev, s1, Raise e)
    end.

Notation "x <- m ;; k" := (bind m (fun x => k))
  (at level 61, m at next level, right associativity).
Notation "m ;; k" := (bind m (fun _ => k))
  (at level 61, right associativity).

(** ** The requests library *)

Definition requests_get (r : reply) : result (Z * option json) :=
  match r with
  | Unreachable => Raise ConnectionError
  | Response status_code body => Ok (status_code, body)
  end.

Definition raise_for_status (status_code : Z) : result unit :=
  if (400 <=? status_code) && (status_code <? 600)
  then Raise (HTTPError status_code)
  else Ok tt.

Definition response_json (body : option json) : result json :=
  match body with
  | Some data => Ok data
  | None => Raise JSONDecodeError
  end.

(** [requests.get(...)], [response.raise_for_status()], [response.json()]. *)
Definition fetch_json (r : reply) : result json :=
  let? response := requests_get r in
  let? _ := raise_for_status (fst response) in
  response_json (snd response).

(** ** fetch_all_solar_systems *)

(** [solar_systems_mapping[system["name"]] = system["id"]]: the right-hand
    side is evaluated first. *)
Definition store (system : json) : stmt dict unit :=
  system_id <- eval (getitem system (py "id")) ;;
  name <- eval (getitem system (py "name")) ;;
  k <- eval (hash name) ;;
  modify (dict_set k system_id).

(** [for system in ...: solar_systems_mapping[system["name"]] = system["id"]] *)
Fixpoint process (systems : list json) : stmt dict unit :=
  match systems with
  | [] => ret tt
  | system :: rest => store system ;; process rest
  end.

(** Lines 25-41: the initial request, on the mapping alone; yields
    [total_systems] and [limit]. *)
Definition first_request (endpoint : pystr) (r : reply) : stmt dict (Z * Z) :=
  emit (Get endpoint 100 0 r) ;;
  data <- eval (fetch_json r) ;;
  emit (Print (PData data)) ;;
  metadata <- eval (getitem data (py "metadata")) ;;
  total <- eval (getitem metadata (py "total")) ;;
  metadata' <- eval (getitem data (py "metadata")) ;;
  lim <- eval (getitem metadata' (py "limit")) ;;
  emit (Print (PTotal total)) ;;
  emit (Print (PLimit lim)) ;;
  total_systems <- eval (as_int total) ;;
  limit <- eval (as_int lim) ;;
  estimate <- eval (floordiv (total_systems + limit - 1) limit) ;;
  emit (Print (PEstimate estimate)) ;;
  batch <- eval (getitem data (py "data")) ;;
  systems <- eval (iterate batch) ;;
  process systems ;;
  emit (Print (PFirstBatch (len systems))) ;;
  ret (total_systems, limit).

(** The variables of the loop. *)
Record state : Type := mkState {
  solar_systems_mapping : dict;
  total_systems : Z;
  limit : Z;
  offset : Z;
  batch_number : Z
}.

Definition on_mapping {A} (m : stmt dict A) : stmt state A :=
  fun st =>
    let '(ev, d, r) := m (solar_systems_mapping st) in
    (ev,
     mkState d (total_systems st) (limit st) (offset st) (batch_number st),
     r).

Definition advance (st : state) : state :=
  mkState (solar_systems_mapping st) (total_systems st) (limit st)
          (offset st + limit st) (batch_number st + 1).

(** Lines 48-72: one turn of the [while] loop, answered by [r]. *)
Definition loop_body (endpoint : pystr) (r : reply) : stmt state unit :=
  st <- get ;;
  emit (Print (PFetchingBatch (batch_number st) (offset st))) ;;
  try_except
    (st <- get ;;
     emit (Get endpoint (limit st) (offset st) r) ;;
     batch_data <- eval (fetch_json r) ;;
     batch <- eval (getitem batch_data (py "data")) ;;
     systems <- eval (iterate batch) ;;
     on_mapping (process systems) ;;
     st <- get ;;
     emit (Print (PProcessedBatch (batch_number st) (len systems))) ;;
     emit (Print (PCollected (len (solar_systems_mapping st)))) ;;
     modify advance ;;
     emit (Sleep 100))
    is_RequestException
    (fun e =>
       st <- get ;;
       emit (Print (PBatchError (offset st) e)) ;;
       emit (Print PRetrying) ;;
       emit (Sleep 5000)).

(** How a run that consumes scripted replies ends: it returns, it raises, or
    the script is used up when the next turn needs a reply. *)
Inductive outcome (A : Type) : Type :=
| Returned (a : A)
| Raised (e : exn)
| Pending.
Arguments Returned {A} a.
Arguments Raised {A} e.
Arguments Pending {A}.

(** Line 47: [while offset < total_systems]. *)
Fixpoint while_loop (endpoint : pystr) (net : list reply) (st : state)
    : list event * state * outcome unit :=
  if offset st <? total_systems st then
    match net with
    | [] => ([], st, Pending)
    | r :: net' =>
        let '(ev, st1, res) := loop_body endpoint r st in
        match res with
        | Ok _ =>
            let '(ev', st2, o) := while_loop endpoint net' st1 in
            (ev ++ ev', st2, o)
        | Raise e => (ev, st1, Raised e)
        end
    end
  else ([], st, Returned tt).

(** Lines 24-76: the outer [try].  [Returned None] is falling out of the
    [try] block, [Returned (Some m)] is the [return {}] of the handler. *)
Definition collect (endpoint : pystr) (net : list reply)
    : list event * dict * outcome (option dict) :=
  match net with
  | [] => ([], [], Pending)
  | r :: net' =>
      let handler (ev : list event) (m : dict) (e : exn) :=
        if is_RequestException e
        then (ev ++ [Print (PInitialError e)], m, Returned (Some []))
        else (ev, m, Raised e) in
      let '(ev, m, res) := first_request endpoint r [] in
      match res with
      | Ok (total, lim) =>
          let '(ev', st, o) :=
            while_loop endpoint net' (mkState m total lim lim 2) in
          match o with
          | Returned _ => (ev ++ ev', solar_systems_mapping st, Returned None)
          | Raised e => handler (ev ++ ev') (solar_systems_mapping st) e
          | Pending => (ev ++ ev', solar_systems_mapping st, Pending)
          end
      | Raise e => handler ev m e
      end
  end.

(** Lines 81-86: the write, where only [IOError] is caught. *)
Definition save (output_file : pystr) (m : dict) (fs : sink) : list event :=
  match fs with
  | SinkOk =>
      [OpenW output_file; Dump output_file m; Print (PSaved output_file)]
  | OpenFails => [Print PSaveError]
  | DumpFails => [OpenW output_file; Print PSaveError]
  end.

Definition fetch_all_solar_systems (base_url output_file : pystr)
    (net : list reply) (fs : sink) : list event * outcome dict :=
  let endpoint := base_url ++ py "/v2/solarsystems" in
  let '(ev, m, o) := collect endpoint net in
  match o with
  | Returned (Some early) => (Print PFetchingInitial :: ev, Returned early)
  | Returned None =>
      (Print PFetchingInitial :: ev ++ [Print (PComplete (len m))]
         ++ save output_file m fs,
       Returned m)
  | Raised e => (Print PFetchingInitial :: ev, Raised e)
  | Pending => (Print PFetchingInitial :: ev, Pending)
  end.

Definition default_output_file : pystr := py "solar_systems_mapping.json".

(** ** main *)

Definition main_base_url : pystr :=
  py "https://blockchain-gateway-stillness.live.tech.evefrontier.com".

Definition main (net : list reply) (fs : sink) : list event * outcome unit :=
  let base_url := main_base_url in
  let '(ev, o) :=
    fetch_all_solar_systems base_url default_output_file net fs in
  let head := [Print PStarting; Print (PBaseUrl base_url)] ++ ev in
  match o with
  | Returned mapping =>
      match mapping with
      | _ :: _ =>
          (head ++ [Print (PSuccess (len mapping)); Print PSampleHeader]
             ++ map (fun kv => Print (PSample (fst kv) (snd kv)))
                    (firstn 5 mapping)
             ++ (if 5 <? len mapping then [Print PEllipsis] else []),
           Returned tt)
      | [] => (head ++ [Print PFailed], Returned tt)
      end
  | Raised e => (head, Raised e)
  | Pending => (head, Pending)
  end.

(** ** Reading a trace *)

Definition requests_of (tr : list event) : list (Z * Z) :=
  flat_map (fun e => match e with Get _ l o _ => [(l, o)] | _ => [] end) tr.

Definition wrote_file (e : event) : bool :=
  match e with
  | OpenW _ | Dump _ _ => true
  | _ => false
  end.

(** ** Sample data *)

Definition system (name : string) (id : Z) : json :=
  JObj [(py "id", JInt id); (py "name", JStr (py name))].

Definition page (total lim : Z) (systems : list json) : reply :=
  Response 200 (Some (JObj
    [(py "metadata", JObj [(py "total", JInt total); (py "limit", JInt lim)]);
     (py "data", JArr systems)])).

Definition sample_host : pystr := py "http://host".
Definition sample_out : pystr := py "out.json".

Definition sample_page : reply := page 3 2 [system "A" 1; system "B" 2].

(** Three systems in pages of two; the second request fails once, and the
    second page renames nothing but gives [A] a new id. *)
Definition sample_script : list reply :=
  [sample_page; Unreachable; page 3 2 [system "A" 7]].

Definition sample_result : dict :=
  [(KStr (py "A"), JInt 7); (KStr (py "B"), JInt 2)].





(** ** What a page holds *)

(** The key and value one system contributes, as [store] computes them. *)
Definition item (system : json) : result (pykey * json) :=
  let? system_id := getitem system (py "id") in
  let? name := getitem system (py "name") in
  let? k := hash name in
  Ok (k, system_id).

Fixpoint items (systems : list json) : result (list (pykey * json)) :=
  match systems with
  | [] => Ok []
  | system :: rest =>
      let? kv := item system in
      let? kvs := items rest in
      Ok (kv :: kvs)
  end.

(** The insertions a reply leads to when it is fetched and processed without
    an exception. *)
Definition page_items (r : reply) : result (list (pykey * json)) :=
  let? data := fetch_json r in
  let? batch := getitem data (py "data") in
  let? systems := iterate batch in
  items systems.

Definition good (r : reply) : bool :=
  match page_items r with
  | Ok _ => true
  | Raise _ => false
  end.

Definition insert_all (kvs : list (pykey * json)) (d : dict) : dict :=
  fold_left (fun acc kv => dict_set (fst kv) (snd kv) acc) kvs d.

(** The items of the pages a trace shows as fetched, in fetch order. *)
Definition fetched (tr : list event) : list (pykey * json) :=
  flat_map (fun e =>
    match e with
    | Get _ _ _ r =>
        match page_items r with
        | Ok kvs => kvs
        | Raise _ => []
        end
    | _ => []
    end) tr.

(** The offsets of the requests whose page was fetched. *)
Definition fetched_offsets (tr : list event) : list Z :=
  flat_map (fun e =>
    match e with
    | Get _ _ off r => if good r then [off] else []
    | _ => []
    end) tr.

(** What the first response reports as [total] and [limit]. *)
Definition metadata_of (data : json) : result (json * json) :=
  let? metadata := getitem data (py "metadata") in
  let? total := getitem metadata (py "total") in
  let? metadata' := getitem data (py "metadata") in
  let? lim := getitem metadata' (py "limit") in
  Ok (total, lim).

Definition reported (r : reply) : result (Z * Z) :=
  let? data := fetch_json r in
  let? md := metadata_of data in
  let? total := as_int (fst md) in
  let? lim := as_int (snd md) in
  Ok (total, lim).

(** Line 35, the estimate: both operands are numbers and the divisor is not
    zero, or it raises. *)
Definition numbers (total lim : json) : result (Z * Z * Z) :=
  let? total_systems := as_int total in
  let? limit := as_int lim in
  let? estimate := floordiv (total_systems + limit - 1) limit in
  Ok (total_systems, limit, estimate).

(** [ceil(total / limit)], the way line 35 computes it. *)
Definition ceil_div (total lim : Z) : Z := (total + lim - 1) / lim.

(** The states the loop can be in at its head, with the trace so far. *)
Inductive reach (endpoint : pystr) (s0 : state) : list event -> state -> Prop :=
| reach_start : reach endpoint s0 [] s0
| reach_turn tr st r ev st' :
    reach endpoint s0 tr st ->
    offset st < total_systems st ->
    loop_body endpoint r st = (ev, st', Ok tt) ->
    reach endpoint s0 (tr ++ ev) st'.

Definition keys (d : dict) : list pykey := map fst d.

Definition with_mapping (st : state) (m : dict) : state :=
  mkState m (total_systems st) (limit st) (offset st) (batch_number st).

(** Everything that holds at the head of the loop. *)
Record loop_invariant (s0 : state) (tr : list event) (st : state) : Prop := {
  inv_total : total_systems st = total_systems s0;
  inv_limit : limit st = limit s0;
  inv_mapping :
    solar_systems_mapping st
    = insert_all (fetched tr) (solar_systems_mapping s0);
  inv_offset :
    exists n : nat,
      offset st = offset s0 + Z.of_nat n * limit s0 /\
      fetched_offsets tr
      = map (fun i => offset s0 + Z.of_nat i * limit s0) (seq 0 n);
  inv_requests : Forall (fun q => fst q = limit s0) (requests_of tr);
  inv_no_write : existsb wrote_file tr = false
}.

(** Where a run of the loop ends: the variables and the outcome. *)
Definition ending (x : list event * state * outcome unit)
    : state * outcome unit :=
  (snd (fst x), snd x).

(** ** The output format

    [json.dump(mapping, f, indent=2, ensure_ascii=False)] for a mapping from
    [str] to [int], and [json.load] on such a text.  The file is taken as
    the text a read in the same encoding gives back: the UTF-8 codec under
    it is not modelled. *)
Module Json.

Local Open Scope N_scope.

Definition mapping : Type := list (pystr * Z).

(** *** json.encoder *)









(** *** json.decoder *)





















End Json.

(** ** More ways to read a trace *)

Definition sleeps_of (tr : list event) : list Z :=
  flat_map (fun e => match e with Sleep ms => [ms] | _ => [] end) tr.

Definition replies_of (tr : list event) : list reply :=
  flat_map (fun e => match e with Get _ _ _ r => [r] | _ => [] end) tr.

Definition lines_of (tr : list event) : list line :=
  flat_map (fun e => match e with Print l => [l] | _ => [] end) tr.


(** The lines only [main] prints. *)
Definition main_line (l : line) : bool :=
  match l with
  | PStarting | PBaseUrl _ | PSuccess _ | PSampleHeader | PSample _ _
  | PEllipsis | PFailed => true
  | _ => false
  end.

(** The pause after a request: 100 ms when its page was fetched, 5 s when
    the request failed. *)
Definition pause_after (r : reply) : Z := if good r then 100 else 5000.

(** A request that raises a [RequestException]. *)
Definition failing (r : reply) : bool :=
  match fetch_json r with
  | Ok _ => false
  | Raise _ => true
  end.

(** The keys of a list in the order of their first occurrence. *)
Definition first_occurrences (l : list pykey) : list pykey :=
  rev (nodup pykey_eq_dec (rev l)).



(** A line announcing a batch names the offset that goes with its number:
    batch 1 is the initial request, batch [b] starts at [(b - 1) * limit]. *)
Definition batch_line_ok (lim : Z) (l : line) : Prop :=
  match l with
  | PFetchingBatch batch off => off = (batch - 1) * lim
  | _ => True
  end.

(** The batch numbers the run reports as processed. *)
Definition processed_of (tr : list event) : list Z :=
  flat_map (fun e =>
    match e with
    | Print (PProcessedBatch batch _) => [batch]
    | _ => []
    end) tr.


(** * Proofs *)

(** ** Exceptions *)

Lemma fetch_json_raise r e :
  fetch_json r = Raise e -> is_RequestException e = true.
Proof.
  destruct r as [|status body]; simpl.
  - intros H; inversion H; reflexivity.
  - unfold fetch_json, raise_for_status; simpl.
    destruct ((400 <=? status) && (status <? 600)); simpl.
    + intros H; inversion H; reflexivity.
    + destruct body; simpl; intros H; inversion H; reflexivity.
Qed.

Lemma fetch_json_fails r :
  (exists e, fetch_json r = Raise e) <->
  r = Unreachable \/
  exists status body, r = Response status body /\
    (400 <= status < 600 \/ body = None).
Proof.
  split.
  - intros [e H]. destruct r as [|status body]; [now left|right].
    exists status, body. split; [reflexivity|].
    unfold fetch_json, raise_for_status in H; simpl in H.
    destruct ((400 <=? status) && (status <? 600)) eqn:E.
    + left. apply andb_true_iff in E. lia.
    + right. destruct body; [discriminate|reflexivity].
  - intros [->|(status & body & -> & [H| ->])].
    + exists ConnectionError. reflexivity.
    + exists (HTTPError status).
      unfold fetch_json, raise_for_status; simpl.
      replace ((400 <=? status) && (status <? 600)) with true; [reflexivity|].
      symmetry. apply andb_true_iff. lia.
    + unfold fetch_json, raise_for_status; simpl.
      destruct ((400 <=? status) && (status <? 600)); simpl; eauto.
Qed.

Lemma getitem_raise x k e :
  getitem x k = Raise e -> is_RequestException e = false.
Proof.
  destruct x; simpl; try (intros H; inversion H; reflexivity).
  destruct (lookup k fields); intros H; inversion H; reflexivity.
Qed.

Lemma iterate_raise x e :
  iterate x = Raise e -> is_RequestException e = false.
Proof. destruct x; simpl; intros H; inversion H; reflexivity. Qed.

Lemma hash_raise x e : hash x = Raise e -> is_RequestException e = false.
Proof. destruct x; simpl; intros H; inversion H; reflexivity. Qed.

Lemma as_int_raise x e : as_int x = Raise e -> is_RequestException e = false.
Proof. destruct x; simpl; intros H; inversion H; reflexivity. Qed.

Lemma item_raise s e : item s = Raise e -> is_RequestException e = false.
Proof.
  unfold item.
  destruct (getitem s (py "id")) eqn:E1; simpl;
    [|intros H; inversion H; subst; eauto using getitem_raise].
  destruct (getitem s (py "name")) eqn:E2; simpl;
    [|intros H; inversion H; subst; eauto using getitem_raise].
  destruct (hash a0) eqn:E3; simpl;
    [discriminate|intros H; inversion H; subst; eauto using hash_raise].
Qed.

Lemma items_raise systems e :
  items systems = Raise e -> is_RequestException e = false.
Proof.
  induction systems as [|s rest IH]; simpl; [discriminate|].
  destruct (item s) eqn:E1; simpl;
    [|intros H; inversion H; subst; eauto using item_raise].
  destruct (items rest); simpl; [discriminate|].
  intros H; inversion H; subst. auto.
Qed.

(** ** Processing a batch *)

Lemma store_eq system m :
  store system m =
  match item system with
  | Ok kv => ([], dict_set (fst kv) (snd kv) m, Ok tt)
  | Raise e => ([], m, Raise e)
  end.
Proof.
  unfold store, item, bind, eval, modify.
  destruct (getitem system (py "id")); simpl; [|reflexivity].
  destruct (getitem system (py "name")); simpl; [|reflexivity].
  destruct (hash a0); reflexivity.
Qed.

Lemma process_ok systems : forall m kvs,
  items systems = Ok kvs ->
  process systems m = ([], insert_all kvs m, Ok tt).
Proof.
  induction systems as [|s rest IH]; simpl; intros m kvs H.
  - inversion H; reflexivity.
  - unfold bind. rewrite store_eq.
    destruct (item s) as [kv|]; simpl in *; [|discriminate].
    destruct (items rest) as [kvs'|]; simpl in *; [|discriminate].
    inversion H; subst. rewrite (IH _ kvs' eq_refl). reflexivity.
Qed.

Lemma process_raise systems : forall m e,
  items systems = Raise e ->
  exists m', process systems m = ([], m', Raise e).
Proof.
  induction systems as [|s rest IH]; simpl; intros m e H; [discriminate|].
  unfold bind. rewrite store_eq.
  destruct (item s) as [kv|e']; simpl in *.
  - destruct (items rest) as [kvs'|e'']; simpl in *; [discriminate|].
    inversion H; subst.
    destruct (IH (dict_set (fst kv) (snd kv) m) e eq_refl) as [m' ->].
    eauto.
  - inversion H; subst. eauto.
Qed.

Lemma items_length systems kvs :
  items systems = Ok kvs -> List.length kvs = List.length systems.
Proof.
  revert kvs. induction systems as [|s rest IH]; simpl; intros kvs H.
  - inversion H; reflexivity.
  - destruct (item s); simpl in H; [|discriminate].
    destruct (items rest); simpl in H; [|discriminate].
    inversion H; subst; simpl. f_equal; auto.
Qed.

(** ** One turn of the loop *)

(** A request that fails: the handler runs and the variables are untouched. *)
Lemma loop_body_retry endpoint r st e :
  fetch_json r = Raise e ->
  loop_body endpoint r st =
  ([Print (PFetchingBatch (batch_number st) (offset st));
    Get endpoint (limit st) (offset st) r;
    Print (PBatchError (offset st) e); Print PRetrying; Sleep 5000],
   st, Ok tt).
Proof.
  intros H. pose proof (fetch_json_raise _ _ H) as Hreq.
  unfold loop_body, bind, try_except, get, emit, eval.
  rewrite H. simpl. rewrite Hreq. reflexivity.
Qed.

(** A page that is fetched and processed. *)
Lemma loop_body_page endpoint r st kvs :
  page_items r = Ok kvs ->
  loop_body endpoint r st =
  ([Print (PFetchingBatch (batch_number st) (offset st));
    Get endpoint (limit st) (offset st) r;
    Print (PProcessedBatch (batch_number st) (len kvs));
    Print (PCollected (len (insert_all kvs (solar_systems_mapping st))));
    Sleep 100],
   advance (with_mapping st (insert_all kvs (solar_systems_mapping st))),
   Ok tt).
Proof.
  unfold page_items. intros H.
  unfold loop_body, bind, try_except, get, emit, eval, modify, on_mapping.
  destruct (fetch_json r) as [data|]; simpl in *; [|discriminate].
  destruct (getitem data (py "data")) as [batch|]; simpl in *; [|discriminate].
  destruct (iterate batch) as [systems|]; simpl in *; [|discriminate].
  rewrite (process_ok _ _ _ H). simpl.
  unfold len. rewrite (items_length _ _ H). reflexivity.
Qed.

(** A page that is fetched but cannot be processed: the exception leaves the
    loop. *)
Lemma loop_body_abort endpoint r st data e :
  fetch_json r = Ok data ->
  page_items r = Raise e ->
  is_RequestException e = false /\
  exists m',
    loop_body endpoint r st =
    ([Print (PFetchingBatch (batch_number st) (offset st));
      Get endpoint (limit st) (offset st) r],
     with_mapping st m', Raise e).
Proof.
  unfold page_items. intros Hd H. rewrite Hd in H. simpl in H.
  unfold loop_body, bind, try_except, get, emit, eval, modify, on_mapping.
  rewrite Hd. simpl.
  destruct (getitem data (py "data")) as [batch|e1] eqn:E1; simpl in *.
  - destruct (iterate batch) as [systems|e2] eqn:E2; simpl in *.
    + pose proof (items_raise _ _ H) as Hne. split; [exact Hne|].
      destruct (process_raise _ (solar_systems_mapping st) _ H) as [m' ->].
      simpl. rewrite Hne. exists m'. reflexivity.
    + inversion H; subst. pose proof (iterate_raise _ _ E2) as Hne.
      split; [exact Hne|]. rewrite Hne.
      exists (solar_systems_mapping st). destruct st; reflexivity.
  - inversion H; subst. pose proof (getitem_raise _ _ _ E1) as Hne.
    split; [exact Hne|]. rewrite Hne.
    exists (solar_systems_mapping st). destruct st; reflexivity.
Qed.

(** The three cases together. *)
Lemma reply_cases r :
  (exists e, fetch_json r = Raise e) \/
  (exists kvs, page_items r = Ok kvs) \/
  (exists data e, fetch_json r = Ok data /\ page_items r = Raise e).
Proof.
  destruct (fetch_json r) as [data|e] eqn:E; [|left; eauto].
  right. destruct (page_items r) as [kvs|e] eqn:E'; [left|right]; eauto.
Qed.

Lemma good_true r : good r = true <-> exists kvs, page_items r = Ok kvs.
Proof.
  unfold good. destruct (page_items r); split; eauto; try discriminate.
  intros [? ?]; discriminate.
Qed.

(** ** The initial request *)

(** What the initial request does, case by case: the request fails, the
    metadata cannot be read, the estimate cannot be computed, the first page
    cannot be processed, or all is well. *)
Lemma first_request_cases endpoint r m :
  match fetch_json r with
  | Raise e =>
      first_request endpoint r m = ([Get endpoint 100 0 r], m, Raise e)
  | Ok data =>
      match metadata_of data with
      | Raise e =>
          first_request endpoint r m
          = ([Get endpoint 100 0 r; Print (PData data)], m, Raise e)
      | Ok (t, l) =>
          match numbers t l with
          | Raise e =>
              first_request endpoint r m
              = ([Get endpoint 100 0 r; Print (PData data);
                  Print (PTotal t); Print (PLimit l)],
                 m, Raise e)
          | Ok (total, lim, estimate) =>
              match page_items r with
              | Raise e =>
                  exists m',
                    first_request endpoint r m
                    = ([Get endpoint 100 0 r; Print (PData data);
                        Print (PTotal t); Print (PLimit l);
                        Print (PEstimate estimate)],
                       m', Raise e)
              | Ok kvs =>
                  first_request endpoint r m
                  = ([Get endpoint 100 0 r; Print (PData data);
                      Print (PTotal t); Print (PLimit l);
                      Print (PEstimate estimate);
                      Print (PFirstBatch (len kvs))],
                     insert_all kvs m, Ok (total, lim))
              end
          end
      end
  end.
Proof.
  unfold first_request, bind, emit, eval, metadata_of, numbers, page_items.
  destruct (fetch_json r) as [data|]; simpl; [|reflexivity].
  destruct (getitem data (py "metadata")) as [md|]; simpl; [|reflexivity].
  destruct (getitem md (py "total")) as [t|]; simpl; [|reflexivity].
  destruct (getitem md (py "limit")) as [l|]; simpl; [|reflexivity].
  destruct (as_int t) as [a|]; simpl; [|reflexivity].
  destruct (as_int l) as [b|]; simpl; [|reflexivity].
  destruct (floordiv (a + b - 1) b) as [estimate|]; simpl; [|reflexivity].
  destruct (getitem data (py "data")) as [batch|]; simpl; [|eauto].
  destruct (iterate batch) as [systems|]; simpl; [|eauto].
  destruct (items systems) as [kvs|e] eqn:Ei.
  - rewrite (process_ok _ _ _ Ei). unfold len.
    rewrite (items_length _ _ Ei). reflexivity.
  - destruct (process_raise _ m _ Ei) as [m' ->]. eauto.
Qed.

Lemma numbers_raise t l e :
  numbers t l = Raise e -> is_RequestException e = false.
Proof.
  unfold numbers, floordiv.
  destruct (as_int t) as [a|] eqn:E1; simpl;
    [|intros H; inversion H; subst; eauto using as_int_raise].
  destruct (as_int l) as [b|] eqn:E2; simpl;
    [|intros H; inversion H; subst; eauto using as_int_raise].
  destruct (b =? 0); simpl; intros H; inversion H; reflexivity.
Qed.

Lemma metadata_of_raise data e :
  metadata_of data = Raise e -> is_RequestException e = false.
Proof.
  unfold metadata_of.
  destruct (getitem data (py "metadata")) as [md|] eqn:E1; simpl;
    [|intros H; inversion H; subst; eauto using getitem_raise].
  destruct (getitem md (py "total")) as [t|] eqn:E2; simpl;
    [|intros H; inversion H; subst; eauto using getitem_raise].
  destruct (getitem md (py "limit")) as [l|] eqn:E3; simpl;
    [discriminate|intros H; inversion H; subst; eauto using getitem_raise].
Qed.

Lemma page_items_raise r e :
  page_items r = Raise e ->
  fetch_json r = Raise e \/ is_RequestException e = false.
Proof.
  unfold page_items.
  destruct (fetch_json r) as [data|]; simpl; [|intros H; inversion H; auto].
  destruct (getitem data (py "data")) as [batch|] eqn:E1; simpl;
    [|intros H; inversion H; subst; eauto using getitem_raise].
  destruct (iterate batch) as [systems|] eqn:E2; simpl;
    [|intros H; inversion H; subst; eauto using iterate_raise].
  eauto using items_raise.
Qed.

(** [reported] is what [numbers] reads, before the division. *)
Lemma reported_inv r total lim :
  reported r = Ok (total, lim) ->
  exists data t l,
    fetch_json r = Ok data /\ metadata_of data = Ok (t, l) /\
    as_int t = Ok total /\ as_int l = Ok lim.
Proof.
  unfold reported.
  destruct (fetch_json r) as [data|] eqn:Ed; simpl; [|discriminate].
  destruct (metadata_of data) as [[t l]|] eqn:Em; simpl; [|discriminate].
  destruct (as_int t) as [a|] eqn:Ea; simpl; [|discriminate].
  destruct (as_int l) as [b|] eqn:Eb; simpl; [|discriminate].
  intros H; inversion H; subst. exists data, t, l. auto.
Qed.

Lemma reported_intro r data t l total lim :
  fetch_json r = Ok data -> metadata_of data = Ok (t, l) ->
  as_int t = Ok total -> as_int l = Ok lim ->
  reported r = Ok (total, lim).
Proof.
  intros Hd Hm Ht Hl. unfold reported. rewrite Hd. simpl. rewrite Hm. simpl.
  rewrite Ht, Hl. reflexivity.
Qed.

Lemma numbers_eq t l total lim :
  as_int t = Ok total -> as_int l = Ok lim ->
  numbers t l = if lim =? 0 then Raise ZeroDivisionError
                else Ok (total, lim, ceil_div total lim).
Proof.
  intros Ht Hl. unfold numbers, floordiv, ceil_div. rewrite Ht, Hl. simpl.
  destruct (lim =? 0); reflexivity.
Qed.

Lemma numbers_inv t l total lim estimate :
  numbers t l = Ok (total, lim, estimate) ->
  as_int t = Ok total /\ as_int l = Ok lim /\ lim <> 0.
Proof.
  unfold numbers, floordiv.
  destruct (as_int t) as [a|]; simpl; [|discriminate].
  destruct (as_int l) as [b|]; simpl; [|discriminate].
  destruct (Z.eqb_spec b 0); simpl; [discriminate|].
  intros H; inversion H; subst. auto.
Qed.

Lemma first_request_fail endpoint r m e :
  fetch_json r = Raise e ->
  first_request endpoint r m = ([Get endpoint 100 0 r], m, Raise e).
Proof.
  intros H. pose proof (first_request_cases endpoint r m) as C.
  rewrite H in C. exact C.
Qed.

Lemma first_request_no_metadata endpoint r m data e :
  fetch_json r = Ok data ->
  metadata_of data = Raise e ->
  first_request endpoint r m =
  ([Get endpoint 100 0 r; Print (PData data)], m, Raise e).
Proof.
  intros H Hm. pose proof (first_request_cases endpoint r m) as C.
  rewrite H, Hm in C. exact C.
Qed.


Lemma first_request_page endpoint r m total lim kvs :
  reported r = Ok (total, lim) ->
  lim <> 0 ->
  page_items r = Ok kvs ->
  exists ev,
    first_request endpoint r m = (ev, insert_all kvs m, Ok (total, lim)) /\
    requests_of ev = [(100, 0)] /\
    fetched ev = kvs /\
    fetched_offsets ev = [0].
Proof.
  intros H Hz Hk.
  destruct (reported_inv _ _ _ H) as (data & t & l & Hd & Hm & Ht & Hl).
  pose proof (first_request_cases endpoint r m) as C.
  rewrite Hd, Hm, (numbers_eq _ _ _ _ Ht Hl) in C.
  destruct (Z.eqb_spec lim 0) as [|_]; [contradiction|].
  rewrite Hk in C. rewrite C. eexists. split; [reflexivity|].
  split; [reflexivity|]. unfold fetched, fetched_offsets, good. simpl.
  rewrite Hk. split; [apply app_nil_r|reflexivity].
Qed.

(** Whatever the initial request does, it is one request and no write. *)
Lemma first_request_trace endpoint r m ev m' res :
  first_request endpoint r m = (ev, m', res) ->
  requests_of ev = [(100, 0)] /\ existsb wrote_file ev = false.
Proof.
  pose proof (first_request_cases endpoint r m) as C.
  destruct (fetch_json r) as [data|].
  2:{ rewrite C. intros H; inversion H; split; reflexivity. }
  destruct (metadata_of data) as [[t l]|].
  2:{ rewrite C. intros H; inversion H; split; reflexivity. }
  destruct (numbers t l) as [[[total lim] estimate]|].
  2:{ rewrite C. intros H; inversion H; split; reflexivity. }
  destruct (page_items r) as [kvs|]; [|destruct C as [m'' C]];
    rewrite C; intros H; inversion H; split; reflexivity.
Qed.

(** The only [RequestException] the initial request raises is that of the
    request itself. *)
Lemma first_request_raise endpoint r m ev m' e :
  first_request endpoint r m = (ev, m', Raise e) ->
  is_RequestException e = true ->
  fetch_json r = Raise e.
Proof.
  pose proof (first_request_cases endpoint r m) as C.
  destruct (fetch_json r) as [data|] eqn:Ed.
  2:{ rewrite C. intros H; inversion H; reflexivity. }
  destruct (metadata_of data) as [[t l]|] eqn:Em.
  2:{ rewrite C. intros H Hq; inversion H; subst.
      rewrite (metadata_of_raise _ _ Em) in Hq. discriminate. }
  destruct (numbers t l) as [[[total lim] estimate]|] eqn:En.
  2:{ rewrite C. intros H Hq; inversion H; subst.
      rewrite (numbers_raise _ _ _ En) in Hq. discriminate. }
  destruct (page_items r) as [kvs|] eqn:Ek.
  - rewrite C. discriminate.
  - destruct C as [m'' C]. rewrite C. intros H Hq; inversion H; subst.
    destruct (page_items_raise _ _ Ek) as [Hf|Hne]; congruence.
Qed.

(** An initial request that goes through. *)
Lemma first_request_ok endpoint r m ev m' total lim :
  first_request endpoint r m = (ev, m', Ok (total, lim)) ->
  reported r = Ok (total, lim) /\ lim <> 0 /\
  requests_of ev = [(100, 0)] /\ fetched_offsets ev = [0] /\
  page_items r = Ok (fetched ev) /\ m' = insert_all (fetched ev) m.
Proof.
  pose proof (first_request_cases endpoint r m) as C.
  destruct (fetch_json r) as [data|] eqn:Ed; [|rewrite C; discriminate].
  destruct (metadata_of data) as [[t l]|] eqn:Em; [|rewrite C; discriminate].
  destruct (numbers t l) as [[[a b] estimate]|] eqn:En;
    [|rewrite C; discriminate].
  destruct (page_items r) as [kvs|] eqn:Ek;
    [|destruct C as [m'' C]; rewrite C; discriminate].
  rewrite C. intros H; inversion H; subst.
  destruct (numbers_inv _ _ _ _ _ En) as (Ht & Hl & Hz).
  pose proof (reported_intro _ _ _ _ _ _ Ed Em Ht Hl) as Hr.
  unfold fetched, fetched_offsets, good. simpl. rewrite Ek, !app_nil_r.
  repeat split; auto.
Qed.

(** ** Turns that let the loop go on *)

Lemma page_items_of_failure r e :
  fetch_json r = Raise e -> page_items r = Raise e.
Proof. unfold page_items. intros ->. reflexivity. Qed.

Lemma loop_body_ok endpoint r st ev st' :
  loop_body endpoint r st = (ev, st', Ok tt) ->
  (exists e, fetch_json r = Raise e /\ st' = st /\
     ev = [Print (PFetchingBatch (batch_number st) (offset st));
           Get endpoint (limit st) (offset st) r;
           Print (PBatchError (offset st) e); Print PRetrying; Sleep 5000])
  \/
  (exists kvs, page_items r = Ok kvs /\
     st' = advance (with_mapping st
                      (insert_all kvs (solar_systems_mapping st))) /\
     ev = [Print (PFetchingBatch (batch_number st) (offset st));
           Get endpoint (limit st) (offset st) r;
           Print (PProcessedBatch (batch_number st) (len kvs));
           Print (PCollected
                    (len (insert_all kvs (solar_systems_mapping st))));
           Sleep 100]).
Proof.
  intros H.
  destruct (reply_cases r) as [[e He]|[[kvs Hk]|(data & e & Hd & He)]].
  - left. exists e. rewrite (loop_body_retry _ _ _ _ He) in H.
    inversion H; subst. auto.
  - right. exists kvs. rewrite (loop_body_page _ _ _ _ Hk) in H.
    inversion H; subst. auto.
  - destruct (loop_body_abort endpoint r st data e Hd He) as [_ [m' Hb]].
    rewrite Hb in H. discriminate.
Qed.

Lemma loop_body_raise endpoint r st ev st' e :
  loop_body endpoint r st = (ev, st', Raise e) ->
  is_RequestException e = false /\ existsb wrote_file ev = false.
Proof.
  intros H.
  destruct (reply_cases r)
    as [[e' He]|[[kvs Hk]|(data & e' & Hd & He)]].
  - rewrite (loop_body_retry _ _ _ _ He) in H. discriminate.
  - rewrite (loop_body_page _ _ _ _ Hk) in H. discriminate.
  - destruct (loop_body_abort endpoint r st data e' Hd He) as [Hne [m' Hb]].
    rewrite Hb in H. inversion H; subst. split; [exact Hne|reflexivity].
Qed.

(** ** Reachable states *)

Lemma fetched_app a b : fetched (a ++ b) = fetched a ++ fetched b.
Proof. apply flat_map_app. Qed.

Lemma fetched_offsets_app a b :
  fetched_offsets (a ++ b) = fetched_offsets a ++ fetched_offsets b.
Proof. apply flat_map_app. Qed.

Lemma requests_of_app a b :
  requests_of (a ++ b) = requests_of a ++ requests_of b.
Proof. apply flat_map_app. Qed.

Lemma insert_all_app a b d :
  insert_all (a ++ b) d = insert_all b (insert_all a d).
Proof. apply fold_left_app. Qed.

Lemma good_false_of_failure r e : fetch_json r = Raise e -> good r = false.
Proof.
  intros H. unfold good. rewrite (page_items_of_failure _ _ H). reflexivity.
Qed.

Lemma good_of_page r kvs : page_items r = Ok kvs -> good r = true.
Proof. intros H. unfold good. rewrite H. reflexivity. Qed.

Lemma reach_invariant endpoint s0 tr st :
  reach endpoint s0 tr st -> loop_invariant s0 tr st.
Proof.
  induction 1 as [|tr st r ev st' Hr IH Hlt Hb].
  - constructor; try reflexivity.
    + exists 0%nat. split; [simpl; lia|reflexivity].
    + constructor.
  - destruct IH as [It Il Im [n [Io If]] Iq Iw].
    destruct (loop_body_ok _ _ _ _ _ Hb)
      as [(e & He & -> & ->)|(kvs & Hk & -> & ->)].
    + pose proof (page_items_of_failure _ _ He) as Hp.
      pose proof (good_false_of_failure _ _ He) as Hg.
      constructor; auto.
      * rewrite fetched_app. simpl. rewrite Hp.
        simpl. rewrite app_nil_r. exact Im.
      * exists n. split; [exact Io|].
        rewrite fetched_offsets_app. simpl.
        rewrite Hg. simpl. rewrite app_nil_r. exact If.
      * rewrite requests_of_app. apply Forall_app. split; [exact Iq|].
        simpl. constructor; [exact Il|constructor].
      * rewrite existsb_app, Iw. reflexivity.
    + pose proof (good_of_page _ _ Hk) as Hg.
      constructor; simpl; auto.
      * rewrite fetched_app, insert_all_app. simpl.
        rewrite Hk, app_nil_r, <- Im. reflexivity.
      * exists (S n). split; [lia|].
        rewrite fetched_offsets_app, seq_S, map_app, If. simpl.
        rewrite Hg, Io. reflexivity.
      * rewrite requests_of_app. apply Forall_app. split; [exact Iq|].
        simpl. constructor; [exact Il|constructor].
      * rewrite existsb_app, Iw. reflexivity.
Qed.

Lemma reach_front endpoint s0 r ev s1 tr st :
  offset s0 < total_systems s0 ->
  loop_body endpoint r s0 = (ev, s1, Ok tt) ->
  reach endpoint s1 tr st ->
  reach endpoint s0 (ev ++ tr) st.
Proof.
  intros Hlt Hb Hr. induction Hr as [|tr st r' ev' st' Hr IH Hlt' Hb'].
  - rewrite app_nil_r. change ev with ([] ++ ev).
    eapply reach_turn; eauto. constructor.
  - rewrite app_assoc. eapply reach_turn; eauto.
Qed.

(** The loop as a function visits reachable states only, never raises a
    [RequestException], and stops for the reason its outcome names. *)
Lemma while_loop_reach endpoint : forall net st tr st' o,
  while_loop endpoint net st = (tr, st', o) ->
  match o with
  | Returned _ =>
      reach endpoint st tr st' /\ total_systems st' <= offset st'
  | Pending =>
      reach endpoint st tr st' /\ offset st' < total_systems st' /\
      List.length (requests_of tr) = List.length net
  | Raised e =>
      is_RequestException e = false /\ existsb wrote_file tr = false
  end.
Proof.
  induction net as [|r net IH]; intros st tr st' o; simpl.
  - destruct (Z.ltb_spec (offset st) (total_systems st)) as [Hlt|Hge];
      intros H; inversion H; subst; repeat split; try constructor; auto.
  - destruct (Z.ltb_spec (offset st) (total_systems st)) as [Hlt|Hge].
    2:{ intros H; inversion H; subst. split; [constructor|lia]. }
    destruct (loop_body endpoint r st) as [[ev st1] res] eqn:Hb.
    destruct res as [[]|e].
    + destruct (while_loop endpoint net st1) as [[ev' st2] o'] eqn:Hw.
      intros H; inversion H; subst. specialize (IH _ _ _ _ Hw).
      assert (Hreq : List.length (requests_of ev) = 1%nat).
      { destruct (loop_body_ok _ _ _ _ _ Hb)
          as [(e & _ & _ & ->)|(kvs & _ & _ & ->)]; reflexivity. }
      assert (Hnw : existsb wrote_file ev = false).
      { destruct (loop_body_ok _ _ _ _ _ Hb)
          as [(e & _ & _ & ->)|(kvs & _ & _ & ->)]; reflexivity. }
      destruct o as [u|e|].
      * destruct IH as [Hr Hge]. split; [|exact Hge].
        eapply reach_front; eauto.
      * destruct IH as [Hne Hw']. split; [exact Hne|].
        rewrite existsb_app, Hnw, Hw'. reflexivity.
      * destruct IH as (Hr & Hlt' & Hlen). split; [|split; [exact Hlt'|]].
        -- eapply reach_front; eauto.
        -- rewrite requests_of_app, length_app, Hreq, Hlen. reflexivity.
    + intros H; inversion H; subst. eapply loop_body_raise; eauto.
Qed.

(** ** The dict *)

Lemma dict_get_set_same k v d : dict_get k (dict_set k v d) = Some v.
Proof.
  induction d as [|[k' v'] d IH]; simpl.
  - destruct (pykey_eq_dec k k); congruence.
  - destruct (pykey_eq_dec k k') as [->|Hne]; simpl.
    + destruct (pykey_eq_dec k' k'); congruence.
    + destruct (pykey_eq_dec k k'); congruence.
Qed.

Lemma dict_get_set_other k k' v d :
  k <> k' -> dict_get k (dict_set k' v d) = dict_get k d.
Proof.
  intros Hne. induction d as [|[k1 v1] d IH]; simpl.
  - destruct (pykey_eq_dec k k'); congruence.
  - destruct (pykey_eq_dec k' k1) as [->|Hne1]; simpl.
    + destruct (pykey_eq_dec k k1); congruence.
    + destruct (pykey_eq_dec k k1); congruence.
Qed.

Lemma keys_set k v d :
  (In k (keys d) /\ keys (dict_set k v d) = keys d) \/
  (~ In k (keys d) /\ keys (dict_set k v d) = keys d ++ [k]).
Proof.
  induction d as [|[k' v'] d IH]; simpl; [right; tauto|].
  destruct (pykey_eq_dec k k') as [Heq|Hne]; simpl.
  - left. auto.
  - destruct IH as [[Hin Hk]|[Hout Hk]]; [left|right];
      (split; [|f_equal; exact Hk]); intuition congruence.
Qed.

Lemma keys_set_in x k v d :
  In x (keys (dict_set k v d)) <-> x = k \/ In x (keys d).
Proof.
  destruct (keys_set k v d) as [[Hin ->]|[Hout ->]].
  - split; [auto|]. intros [->|H]; assumption.
  - rewrite in_app_iff. simpl. intuition congruence.
Qed.

Lemma keys_set_nodup k v d : NoDup (keys d) -> NoDup (keys (dict_set k v d)).
Proof.
  intros Hd. destruct (keys_set k v d) as [[Hin ->]|[Hout ->]]; [exact Hd|].
  apply NoDup_app; [exact Hd|repeat constructor; simpl; tauto|].
  intros a Ha [Heq|[]]. subst. contradiction.
Qed.

Lemma keys_insert_all_in kvs : forall d x,
  In x (keys (insert_all kvs d)) <-> In x (keys d) \/ In x (map fst kvs).
Proof.
  induction kvs as [|[k v] kvs IH]; intros d x; simpl.
  - tauto.
  - unfold insert_all in *. simpl. rewrite IH, keys_set_in. intuition.
Qed.

Lemma keys_insert_all_nodup kvs : forall d,
  NoDup (keys d) -> NoDup (keys (insert_all kvs d)).
Proof.
  induction kvs as [|[k v] kvs IH]; intros d Hd; simpl; [exact Hd|].
  apply IH, keys_set_nodup, Hd.
Qed.

Lemma dict_get_insert_all_out kvs : forall d k,
  ~ In k (map fst kvs) -> dict_get k (insert_all kvs d) = dict_get k d.
Proof.
  induction kvs as [|[k' v'] kvs IH]; intros d k Hout; simpl; [reflexivity|].
  simpl in Hout. unfold insert_all in *. simpl. rewrite IH by tauto.
  apply dict_get_set_other. intros ->. tauto.
Qed.

(** The last binding of a key is the one the dict holds. *)
Lemma dict_get_insert_all_last pre k v post d :
  ~ In k (map fst post) ->
  dict_get k (insert_all (pre ++ (k, v) :: post) d) = Some v.
Proof.
  intros Hout. rewrite insert_all_app. unfold insert_all at 1. simpl.
  fold (insert_all post
          (dict_set k v (insert_all pre d))).
  rewrite dict_get_insert_all_out by exact Hout.
  apply dict_get_set_same.
Qed.

(** Its size is the number of distinct keys inserted. *)
Lemma insert_all_length kvs :
  List.length (insert_all kvs [])
  = List.length (nodup pykey_eq_dec (map fst kvs)).
Proof.
  rewrite <- (length_map fst (insert_all kvs [])).
  fold (keys (insert_all kvs [])).
  assert (Hd : NoDup (keys (insert_all kvs [])))
    by (apply keys_insert_all_nodup; constructor).
  assert (Hn : NoDup (nodup pykey_eq_dec (map fst kvs))) by apply NoDup_nodup.
  apply Nat.le_antisymm; apply NoDup_incl_length; auto; intros x Hx.
  - apply nodup_In. apply keys_insert_all_in in Hx. simpl in Hx. tauto.
  - apply keys_insert_all_in. right. eapply nodup_In; eauto.
Qed.

Lemma insert_all_nil kvs : insert_all kvs [] = [] <-> kvs = [].
Proof.
  split; [|intros ->; reflexivity].
  destruct kvs as [|[k v] kvs]; [reflexivity|]. intros H. exfalso.
  assert (Hin : In k (keys (insert_all ((k, v) :: kvs) []))).
  { apply keys_insert_all_in. right. simpl. auto. }
  rewrite H in Hin. exact Hin.
Qed.

(** ** The outer [try] *)

Lemma collect_completed endpoint net ev m :
  collect endpoint net = (ev, m, Returned None) ->
  exists r0 net' ev0 m0 total lim tr st,
    net = r0 :: net' /\
    first_request endpoint r0 [] = (ev0, m0, Ok (total, lim)) /\
    while_loop endpoint net' (mkState m0 total lim lim 2)
      = (tr, st, Returned tt) /\
    ev = ev0 ++ tr /\ m = solar_systems_mapping st.
Proof.
  destruct net as [|r0 net']; simpl; [discriminate|].
  destruct (first_request endpoint r0 []) as [[ev0 m0] [[total lim]|e]] eqn:Hf.
  - destruct (while_loop endpoint net' (mkState m0 total lim lim 2))
      as [[tr st] [[]|e|]] eqn:Hw.
    + intros H; inversion H; subst. repeat eexists; eauto.
    + destruct (is_RequestException e); discriminate.
    + discriminate.
  - destruct (is_RequestException e); discriminate.
Qed.

Lemma collect_early endpoint net ev m early :
  collect endpoint net = (ev, m, Returned (Some early)) ->
  early = [] /\
  exists r0 net' e,
    net = r0 :: net' /\ fetch_json r0 = Raise e /\
    ev = [Get endpoint 100 0 r0; Print (PInitialError e)].
Proof.
  destruct net as [|r0 net']; simpl; [discriminate|].
  destruct (first_request endpoint r0 []) as [[ev0 m0] [[total lim]|e]] eqn:Hf.
  - destruct (while_loop endpoint net' (mkState m0 total lim lim 2))
      as [[tr st] [[]|e|]] eqn:Hw; try discriminate.
    destruct (while_loop_reach _ _ _ _ _ _ Hw) as [Hne _].
    rewrite Hne. discriminate.
  - destruct (is_RequestException e) eqn:Hq; [|discriminate].
    intros H; inversion H; subst. split; [reflexivity|].
    pose proof (first_request_raise _ _ _ _ _ _ Hf Hq) as Hj.
    rewrite (first_request_fail _ _ _ _ Hj) in Hf. inversion Hf; subst.
    exists r0, net', e. auto.
Qed.


Lemma fetched_print l tr : fetched (Print l :: tr) = fetched tr.
Proof. reflexivity. Qed.

Lemma fetched_save output_file m fs : fetched (save output_file m fs) = [].
Proof. destruct fs; reflexivity. Qed.

Lemma requests_of_save output_file m fs :
  requests_of (save output_file m fs) = [].
Proof. destruct fs; reflexivity. Qed.

(** A run that returns holds exactly what the fetched pages inserted. *)
Lemma fetch_all_mapping base_url output_file net fs tr m :
  fetch_all_solar_systems base_url output_file net fs = (tr, Returned m) ->
  m = insert_all (fetched tr) [].
Proof.
  unfold fetch_all_solar_systems.
  destruct (collect (base_url ++ py "/v2/solarsystems") net)
    as [[ev m'] o] eqn:Hc.
  destruct o as [[early|]|e|]; try discriminate; intros H; inversion H; subst.
  - destruct (collect_early _ _ _ _ _ Hc)
      as (-> & r0 & net' & e & -> & He & ->).
    simpl. rewrite (page_items_of_failure _ _ He). reflexivity.
  - destruct (collect_completed _ _ _ _ Hc)
      as (r0 & net' & ev0 & m0 & total & lim & tr' & st
          & -> & Hf & Hw & -> & ->).
    destruct (first_request_ok _ _ _ _ _ _ _ Hf) as (_ & _ & _ & _ & _ & ->).
    destruct (while_loop_reach _ _ _ _ _ _ Hw) as [Hr _].
    destruct (reach_invariant _ _ _ _ Hr) as [_ _ Im _ _ _]. simpl in Im.
    rewrite Im.
    rewrite fetched_print, !fetched_app, fetched_print, fetched_save.
    rewrite app_nil_r.
    rewrite insert_all_app. reflexivity.
Qed.

(** * The claims *)

(** C3.  A run that returns holds one entry per distinct name met on the
    pages it fetched, and a name met several times is mapped to the id of its
    last occurrence in fetch order. *)
Theorem mapping_last_write_wins base_url output_file net fs tr m :
  fetch_all_solar_systems base_url output_file net fs = (tr, Returned m) ->
  List.length m
  = List.length (nodup pykey_eq_dec (map fst (fetched tr))) /\
  forall pre name system_id post,
    fetched tr = pre ++ (name, system_id) :: post ->
    ~ In name (map fst post) ->
    dict_get name m = Some system_id.
Proof.
  intros H. rewrite (fetch_all_mapping _ _ _ _ _ _ H). split.
  - apply insert_all_length.
  - intros pre name system_id post -> Hlast.
    apply dict_get_insert_all_last, Hlast.
Qed.

Lemma fetch_all_initial_failure base_url output_file r0 net fs e :
  fetch_json r0 = Raise e ->
  fetch_all_solar_systems base_url output_file (r0 :: net) fs
  = ([Print PFetchingInitial;
      Get (base_url ++ py "/v2/solarsystems") 100 0 r0;
      Print (PInitialError e)],
     Returned []).
Proof.
  intros H. unfold fetch_all_solar_systems, collect.
  rewrite (first_request_fail _ _ _ _ H), (fetch_json_raise _ _ H).
  reflexivity.
Qed.

(** C1, as the code has it.  When the initial request fails with a
    [RequestException] (no response, a 4xx or 5xx status, a body that is not
    JSON) the run ends after that one request, returns the empty mapping and
    writes nothing.  When the body is JSON but [metadata], [total] or [limit]
    cannot be read, the [KeyError] or [TypeError] is not caught: the run
    raises it, returns no mapping, and writes nothing. *)
Theorem initial_request_failure base_url output_file r0 net fs :
  (forall e, fetch_json r0 = Raise e ->
     fetch_all_solar_systems base_url output_file (r0 :: net) fs
     = ([Print PFetchingInitial;
         Get (base_url ++ py "/v2/solarsystems") 100 0 r0;
         Print (PInitialError e)],
        Returned [])) /\
  (forall data e, fetch_json r0 = Ok data -> metadata_of data = Raise e ->
     fetch_all_solar_systems base_url output_file (r0 :: net) fs
     = ([Print PFetchingInitial;
         Get (base_url ++ py "/v2/solarsystems") 100 0 r0;
         Print (PData data)],
        Raised e)) /\
  ((exists e, fetch_json r0 = Raise e) <->
   r0 = Unreachable \/
   exists status body, r0 = Response status body /\
     (400 <= status < 600 \/ body = None)).
Proof.
  split; [|split].
  - intros e H. apply fetch_all_initial_failure, H.
  - intros data e Hd Hm. unfold fetch_all_solar_systems, collect.
    rewrite (first_request_no_metadata _ _ _ _ _ Hd Hm).
    rewrite (metadata_of_raise _ _ Hm). reflexivity.
  - apply fetch_json_fails.
Qed.

(** C1 as stated fails: a 200 response whose JSON body has no [metadata] key
    makes the run raise [KeyError] instead of returning the empty mapping. *)
Lemma missing_metadata_is_not_caught :
  fetch_json (Response 200 (Some (JObj [(py "data", JArr [])])))
  = Ok (JObj [(py "data", JArr [])]) /\
  snd (fetch_all_solar_systems (py "http://host") (py "out.json")
         [Response 200 (Some (JObj [(py "data", JArr [])]))] SinkOk)
  = Raised (KeyError (py "metadata")) /\
  snd (fetch_all_solar_systems (py "http://host") (py "out.json")
         [Response 200 (Some (JObj [(py "data", JArr [])]))] SinkOk)
  <> Returned [].
Proof.
  split; [reflexivity|]. split; [vm_compute; reflexivity|].
  vm_compute. discriminate.
Qed.

(** C6, as the code has it.  The returned mapping is empty exactly when no
    fetched page held an item; an initial request that fails with a
    [RequestException] is one way to get there. *)
Theorem empty_mapping_meaning base_url output_file net fs tr m :
  fetch_all_solar_systems base_url output_file net fs = (tr, Returned m) ->
  (m = [] <-> fetched tr = []) /\
  (forall r0 net' e,
     net = r0 :: net' -> fetch_json r0 = Raise e -> m = []).
Proof.
  intros H. split.
  - rewrite (fetch_all_mapping _ _ _ _ _ _ H). apply insert_all_nil.
  - intros r0 net' e -> He.
    rewrite (fetch_all_initial_failure _ _ _ _ _ _ He) in H.
    inversion H; reflexivity.
Qed.

(** C6 as stated fails: with [total = 0] and no items the initial request
    succeeds, the file is written, and the returned mapping is empty all the
    same; [main] then reports a failure. *)
Lemma empty_mapping_without_failure :
  snd (fetch_all_solar_systems (py "http://host") (py "out.json")
         [page 0 100 []] SinkOk)
  = Returned [] /\
  (exists data, fetch_json (page 0 100 []) = Ok data) /\
  In (Dump (py "out.json") [])
     (fst (fetch_all_solar_systems (py "http://host") (py "out.json")
             [page 0 100 []] SinkOk)) /\
  In (Print PFailed) (fst (main [page 0 100 []] SinkOk)).
Proof.
  split; [vm_compute; reflexivity|]. split; [eexists; reflexivity|].
  split; vm_compute; tauto.
Qed.




(** ** Dropping a failed attempt from the script *)

Lemma while_loop_skip endpoint failed post e :
  fetch_json failed = Raise e ->
  forall pre st,
    ending (while_loop endpoint (pre ++ failed :: post) st)
    = ending (while_loop endpoint (pre ++ post) st).
Proof.
  intros He. induction pre as [|r pre IH]; intros st.
  - simpl. rewrite (loop_body_retry _ _ _ _ He).
    destruct (Z.ltb_spec (offset st) (total_systems st)) as [Hlt|Hge].
    + destruct (while_loop endpoint post st) as [[tr st'] o]. reflexivity.
    + destruct post; simpl;
        destruct (Z.ltb_spec (offset st) (total_systems st)); try lia;
        reflexivity.
  - simpl. destruct (offset st <? total_systems st); [|reflexivity].
    destruct (loop_body endpoint r st) as [[ev st1] [[]|e1]]; [|reflexivity].
    specialize (IH st1).
    destruct (while_loop endpoint (pre ++ failed :: post) st1) as [[t1 s1] o1].
    destruct (while_loop endpoint (pre ++ post) st1) as [[t2 s2] o2].
    unfold ending in *. simpl in *. exact IH.
Qed.

(** C5.  A failed attempt at a later page leaves the variables of the loop
    as they were, and a run whose script has one such failure in it ends as
    the run without it does: with the same mapping when it returns. *)
Theorem one_failure_changes_nothing
    base_url output_file r0 pre failed post fs e :
  fetch_json failed = Raise e ->
  snd (fetch_all_solar_systems base_url output_file
         (r0 :: pre ++ failed :: post) fs)
  = snd (fetch_all_solar_systems base_url output_file
           (r0 :: pre ++ post) fs) /\
  forall endpoint st,
    exists ev, loop_body endpoint failed st = (ev, st, Ok tt).
Proof.
  intros He. split.
  - unfold fetch_all_solar_systems, collect.
    destruct (first_request (base_url ++ py "/v2/solarsystems") r0 [])
      as [[ev0 m0] [[total lim]|e0]]; [|reflexivity].
    pose proof (while_loop_skip (base_url ++ py "/v2/solarsystems")
                  failed post e He pre (mkState m0 total lim lim 2)) as Hs.
    destruct (while_loop (base_url ++ py "/v2/solarsystems")
                (pre ++ failed :: post) (mkState m0 total lim lim 2))
      as [[t1 s1] o1].
    destruct (while_loop (base_url ++ py "/v2/solarsystems")
                (pre ++ post) (mkState m0 total lim lim 2))
      as [[t2 s2] o2].
    unfold ending in Hs. simpl in Hs. inversion Hs; subst.
    destruct o2 as [[]|e2|]; try reflexivity.
    destruct (is_RequestException e2); reflexivity.
  - intros endpoint st. rewrite (loop_body_retry _ _ _ _ He). eauto.
Qed.



(** ** Runs in which every page is fetched *)

Lemma while_loop_exit endpoint net st :
  total_systems st <= offset st ->
  while_loop endpoint net st = ([], st, Returned tt).
Proof.
  intros Hge. destruct net; simpl;
    destruct (Z.ltb_spec (offset st) (total_systems st)); try lia;
    reflexivity.
Qed.

(** With a positive limit, [j] good replies take the loop from an offset
    that is [j] pages short of the total to its exit. *)
Lemma while_loop_pages endpoint : forall (j : nat) net st,
  1 <= limit st ->
  total_systems st <= offset st + Z.of_nat j * limit st ->
  (j = 0%nat \/ offset st + (Z.of_nat j - 1) * limit st < total_systems st) ->
  (j <= List.length net)%nat ->
  forallb good (firstn j net) = true ->
  exists tr st',
    while_loop endpoint net st = (tr, st', Returned tt) /\
    requests_of tr
    = map (fun i => (limit st, offset st + Z.of_nat i * limit st)) (seq 0 j).
Proof.
  induction j as [|j IH]; intros net st Hl Hup Hmin Hlen Hgood.
  - exists [], st. split; [|reflexivity].
    apply while_loop_exit. simpl in Hup. lia.
  - destruct Hmin as [Hj|Hmin]; [discriminate|].
    destruct net as [|r net]; [simpl in Hlen; lia|].
    simpl in Hgood. apply andb_true_iff in Hgood. destruct Hgood as [Hg Hgs].
    apply good_true in Hg. destruct Hg as [kvs Hk].
    assert (Hlt : offset st < total_systems st) by nia.
    simpl. destruct (Z.ltb_spec (offset st) (total_systems st)); [|lia].
    rewrite (loop_body_page _ _ _ _ Hk).
    set (st1 := advance (with_mapping st
                  (insert_all kvs (solar_systems_mapping st)))).
    destruct (IH net st1) as (tr & st' & Hw & Hq); simpl.
    + exact Hl.
    + lia.
    + destruct j; [left; reflexivity|right]. lia.
    + simpl in Hlen. lia.
    + exact Hgs.
    + rewrite Hw. exists
        ([Print (PFetchingBatch (batch_number st) (offset st));
          Get endpoint (limit st) (offset st) r;
          Print (PProcessedBatch (batch_number st) (len kvs));
          Print (PCollected (len (insert_all kvs (solar_systems_mapping st))));
          Sleep 100] ++ tr), st'.
      split; [reflexivity|].
      rewrite requests_of_app, Hq. simpl. f_equal.
      * f_equal. lia.
      * rewrite <- seq_shift, map_map. apply map_ext. intros i. f_equal. lia.
Qed.


Lemma ceil_div_bounds total lim :
  1 <= lim ->
  (ceil_div total lim - 1) * lim < total <= ceil_div total lim * lim.
Proof.
  intros Hl. unfold ceil_div.
  pose proof (Z.div_mod (total + lim - 1) lim ltac:(lia)) as Hdm.
  pose proof (Z.mod_pos_bound (total + lim - 1) lim ltac:(lia)) as Hb.
  nia.
Qed.

(** The run after a first page that is fetched and processed. *)
Lemma fetch_all_after_first base_url output_file r0 net fs total lim kvs :
  reported r0 = Ok (total, lim) ->
  lim <> 0 ->
  page_items r0 = Ok kvs ->
  exists ev0,
    requests_of ev0 = [(100, 0)] /\
    forall tr st o,
      while_loop (base_url ++ py "/v2/solarsystems") net
        (mkState (insert_all kvs []) total lim lim 2) = (tr, st, o) ->
      fetch_all_solar_systems base_url output_file (r0 :: net) fs
      = match o with
        | Returned _ =>
            (Print PFetchingInitial :: (ev0 ++ tr) ++
               [Print (PComplete (len (solar_systems_mapping st)))] ++
               save output_file (solar_systems_mapping st) fs,
             Returned (solar_systems_mapping st))
        | Raised e => (Print PFetchingInitial :: ev0 ++ tr, Raised e)
        | Pending => (Print PFetchingInitial :: ev0 ++ tr, Pending)
        end.
Proof.
  intros Hr Hz Hk.
  destruct (first_request_page (base_url ++ py "/v2/solarsystems")
              r0 [] total lim kvs Hr Hz Hk) as (ev0 & Hf & Hq & _).
  exists ev0. split; [exact Hq|]. intros tr st o Hw.
  unfold fetch_all_solar_systems, collect. rewrite Hf, Hw.
  destruct o as [u|e|]; try reflexivity.
  destruct (while_loop_reach _ _ _ _ _ _ Hw) as [Hne _]. rewrite Hne.
  reflexivity.
Qed.

Lemma fetch_all_pages base_url output_file r0 rest fs total lim :
  reported r0 = Ok (total, lim) ->
  1 <= lim ->
  (Z.to_nat (Z.max 1 (ceil_div total lim)) <= S (List.length rest))%nat ->
  forallb good
    (firstn (Z.to_nat (Z.max 1 (ceil_div total lim))) (r0 :: rest)) = true ->
  exists tr m,
    fetch_all_solar_systems base_url output_file (r0 :: rest) fs
    = (tr, Returned m) /\
    requests_of tr
    = (100, 0) :: map (fun i => (lim, Z.of_nat i * lim))
                      (seq 1 (Z.to_nat (Z.max 1 (ceil_div total lim)) - 1)).
Proof.
  intros Hr Hl Hlen Hgood.
  pose proof (ceil_div_bounds total lim Hl) as Hc.
  remember (Z.to_nat (Z.max 1 (ceil_div total lim))) as n eqn:Hn.
  destruct n as [|j]; [lia|].
  simpl in Hgood. apply andb_true_iff in Hgood. destruct Hgood as [Hg Hgs].
  apply good_true in Hg. destruct Hg as [kvs Hk].
  destruct (fetch_all_after_first base_url output_file r0 rest fs
              total lim kvs Hr ltac:(lia) Hk) as (ev0 & Hq0 & Hrun).
  destruct (while_loop_pages (base_url ++ py "/v2/solarsystems") j rest
              (mkState (insert_all kvs []) total lim lim 2))
    as (tr & st & Hw & Hq); simpl.
  - exact Hl.
  - nia.
  - destruct j; [left; reflexivity|right]. nia.
  - lia.
  - exact Hgs.
  - rewrite (Hrun _ _ _ Hw). eexists _, _. split; [reflexivity|].
    change (Print PFetchingInitial :: (ev0 ++ tr) ++
            [Print (PComplete (len (solar_systems_mapping st)))] ++
            save output_file (solar_systems_mapping st) fs)
      with ([Print PFetchingInitial] ++ (ev0 ++ tr) ++
            [Print (PComplete (len (solar_systems_mapping st)))] ++
            save output_file (solar_systems_mapping st) fs).
    rewrite !requests_of_app, requests_of_save, Hq0, Hq. simpl.
    rewrite app_nil_r, Nat.sub_0_r. f_equal.
    rewrite <- seq_shift, map_map. apply map_ext. intros i. f_equal. lia.
Qed.

(** C2, as the code has it.  With a page size of at least 1 and every page
    fetched, the run returns after [max 1 (ceil (total / limit))] requests:
    the initial one at offset 0 asking for 100 items, then one per further
    page at offsets limit, 2 limit, ... with the reported limit.  That is
    [ceil (total / limit)] requests when the total is at least 1, and one
    request when it is not. *)
Theorem request_count base_url output_file r0 rest fs total lim :
  reported r0 = Ok (total, lim) ->
  1 <= lim ->
  (Z.to_nat (Z.max 1 (ceil_div total lim)) <= S (List.length rest))%nat ->
  forallb good
    (firstn (Z.to_nat (Z.max 1 (ceil_div total lim))) (r0 :: rest)) = true ->
  exists tr m,
    fetch_all_solar_systems base_url output_file (r0 :: rest) fs
    = (tr, Returned m) /\
    requests_of tr
    = (100, 0) :: map (fun i => (lim, Z.of_nat i * lim))
                      (seq 1 (Z.to_nat (Z.max 1 (ceil_div total lim)) - 1)) /\
    (1 <= total -> len (requests_of tr) = ceil_div total lim) /\
    (total <= 0 -> len (requests_of tr) = 1).
Proof.
  intros Hr Hl Hlen Hgood.
  destruct (fetch_all_pages base_url output_file r0 rest fs total lim
              Hr Hl Hlen Hgood) as (tr & m & Hrun & Hq).
  exists tr, m. split; [exact Hrun|]. split; [exact Hq|].
  pose proof (ceil_div_bounds total lim Hl) as Hc.
  assert (Hn : len (requests_of tr) = Z.max 1 (ceil_div total lim)).
  { unfold len. rewrite Hq. simpl. rewrite length_map, length_seq. lia. }
  rewrite Hn. split; intros Ht; nia.
Qed.

(** C2 as stated fails: with [total = 0] every request succeeds and the
    run issues one request, where [ceil (0 / 100)] is 0. *)
Lemma one_request_for_an_empty_collection :
  snd (fetch_all_solar_systems (py "http://host") (py "out.json")
         [page 0 100 []] SinkOk) = Returned [] /\
  reported (page 0 100 []) = Ok (0, 100) /\
  good (page 0 100 []) = true /\
  requests_of (fst (fetch_all_solar_systems (py "http://host")
                      (py "out.json") [page 0 100 []] SinkOk))
  = [(100, 0)] /\
  len (requests_of (fst (fetch_all_solar_systems (py "http://host")
                           (py "out.json") [page 0 100 []] SinkOk)))
  <> ceil_div 0 100.
Proof.
  repeat split; try (vm_compute; reflexivity). vm_compute. discriminate.
Qed.




(** ** The theorems at sample runs *)

Lemma mapping_last_write_wins_witness :
  fetch_all_solar_systems sample_host sample_out sample_script SinkOk
  = (fst (fetch_all_solar_systems sample_host sample_out sample_script SinkOk),
     Returned sample_result) /\
  List.length sample_result = 2%nat /\
  dict_get (KStr (py "A")) sample_result = Some (JInt 7).
Proof.
  assert (H : fetch_all_solar_systems sample_host sample_out sample_script
                SinkOk
              = (fst (fetch_all_solar_systems sample_host sample_out
                        sample_script SinkOk),
                 Returned sample_result))
    by (vm_compute; reflexivity).
  split; [exact H|].
  destruct (mapping_last_write_wins _ _ _ _ _ _ H) as [Hlen Hlast].
  split.
  - rewrite Hlen. vm_compute. reflexivity.
  - apply (Hlast [(KStr (py "A"), JInt 1); (KStr (py "B"), JInt 2)]
             (KStr (py "A")) (JInt 7) []).
    + vm_compute. reflexivity.
    + simpl. tauto.
Defined.

Lemma initial_request_failure_witness :
  fetch_json Unreachable = Raise ConnectionError /\
  snd (fetch_all_solar_systems sample_host sample_out
         (Unreachable :: sample_script) SinkOk) = Returned [] /\
  metadata_of (JObj []) = Raise (KeyError (py "metadata")) /\
  snd (fetch_all_solar_systems sample_host sample_out
         (Response 200 (Some (JObj [])) :: sample_script) SinkOk)
  = Raised (KeyError (py "metadata")).
Proof.
  assert (H1 : fetch_json Unreachable = Raise ConnectionError)
    by reflexivity.
  assert (H2 : metadata_of (JObj []) = Raise (KeyError (py "metadata")))
    by reflexivity.
  split; [exact H1|]. split; [|split; [exact H2|]].
  - destruct (initial_request_failure sample_host sample_out Unreachable
                sample_script SinkOk) as [Hfail _].
    rewrite (Hfail _ H1). reflexivity.
  - destruct (initial_request_failure sample_host sample_out
                (Response 200 (Some (JObj []))) sample_script SinkOk)
      as [_ [Hmeta _]].
    rewrite (Hmeta (JObj []) _ eq_refl H2). reflexivity.
Defined.

Lemma empty_mapping_meaning_witness :
  fetch_all_solar_systems sample_host sample_out [page 0 100 []] SinkOk
  = (fst (fetch_all_solar_systems sample_host sample_out [page 0 100 []]
            SinkOk),
     Returned []) /\
  fetched (fst (fetch_all_solar_systems sample_host sample_out
                  [page 0 100 []] SinkOk)) = [].
Proof.
  assert (H : fetch_all_solar_systems sample_host sample_out
                [page 0 100 []] SinkOk
              = (fst (fetch_all_solar_systems sample_host sample_out
                        [page 0 100 []] SinkOk),
                 Returned []))
    by (vm_compute; reflexivity).
  split; [exact H|].
  destruct (empty_mapping_meaning _ _ _ _ _ _ H) as [Hiff _].
  apply Hiff. reflexivity.
Defined.



Lemma one_failure_changes_nothing_witness :
  fetch_json Unreachable = Raise ConnectionError /\
  snd (fetch_all_solar_systems sample_host sample_out
         (sample_page :: [] ++ Unreachable :: [page 3 2 [system "A" 7]])
         SinkOk)
  = snd (fetch_all_solar_systems sample_host sample_out
           (sample_page :: [] ++ [page 3 2 [system "A" 7]]) SinkOk).
Proof.
  assert (H : fetch_json Unreachable = Raise ConnectionError) by reflexivity.
  split; [exact H|].
  apply (one_failure_changes_nothing sample_host sample_out sample_page []
           Unreachable [page 3 2 [system "A" 7]] SinkOk _ H).
Defined.


Lemma request_count_witness :
  reported (page 250 100 []) = Ok (250, 100) /\
  1 <= 100 /\
  (Z.to_nat (Z.max 1 (ceil_div 250 100))
   <= S (List.length [page 250 100 []; page 250 100 []]))%nat /\
  forallb good
    (firstn (Z.to_nat (Z.max 1 (ceil_div 250 100)))
       [page 250 100 []; page 250 100 []; page 250 100 []]) = true /\
  exists tr m,
    fetch_all_solar_systems sample_host sample_out
      [page 250 100 []; page 250 100 []; page 250 100 []] SinkOk
    = (tr, Returned m) /\
    requests_of tr = [(100, 0); (100, 100); (100, 200)].
Proof.
  assert (H1 : reported (page 250 100 []) = Ok (250, 100)) by reflexivity.
  assert (H2 : 1 <= 100) by lia.
  assert (H3 : (Z.to_nat (Z.max 1 (ceil_div 250 100))
                <= S (List.length [page 250 100 []; page 250 100 []]))%nat)
    by (vm_compute; lia).
  assert (H4 : forallb good
                 (firstn (Z.to_nat (Z.max 1 (ceil_div 250 100)))
                    [page 250 100 []; page 250 100 []; page 250 100 []])
               = true)
    by (vm_compute; reflexivity).
  split; [exact H1|]. split; [exact H2|]. split; [exact H3|].
  split; [exact H4|].
  destruct (request_count sample_host sample_out (page 250 100 [])
              [page 250 100 []; page 250 100 []] SinkOk 250 100
              H1 H2 H3 H4) as (tr & m & Hrun & Hq & _).
  exists tr, m. split; [exact Hrun|]. rewrite Hq. vm_compute. reflexivity.
Defined.


(** ** The output format read back *)

Module JsonFacts.

Import Json.
Local Open Scope N_scope.


















End JsonFacts.



(** * Further properties *)

(** ** How a run is put together *)

Lemma while_loop_raised endpoint : forall net st tr st' e,
  while_loop endpoint net st = (tr, st', Raised e) ->
  exists tr1 st1 r data m',
    reach endpoint st tr1 st1 /\ offset st1 < total_systems st1 /\
    fetch_json r = Ok data /\ page_items r = Raise e /\
    tr = tr1 ++ [Print (PFetchingBatch (batch_number st1) (offset st1));
                 Get endpoint (limit st1) (offset st1) r] /\
    st' = with_mapping st1 m'.
Proof.
  induction net as [|r net IH]; intros st tr st' e; simpl;
    destruct (Z.ltb_spec (offset st) (total_systems st)) as [Hlt|Hge];
    try discriminate.
  destruct (loop_body endpoint r st) as [[ev st1] res] eqn:Hb.
  destruct res as [[]|e1].
  - destruct (while_loop endpoint net st1) as [[ev' st2] o'] eqn:Hw.
    intros H; inversion H; subst.
    destruct (IH _ _ _ _ Hw) as (tr1 & s1 & r1 & data & m' & Hr & Hl & Hd
                                 & Hp & -> & ->).
    exists (ev ++ tr1), s1, r1, data, m'.
    split; [eapply reach_front; eauto|]. rewrite app_assoc. auto 6.
  - intros H; inversion H; subst.
    destruct (reply_cases r) as [[e' He]|[[kvs Hk]|(data & e' & Hd & He)]].
    + rewrite (loop_body_retry _ _ _ _ He) in Hb. discriminate.
    + rewrite (loop_body_page _ _ _ _ Hk) in Hb. discriminate.
    + destruct (loop_body_abort endpoint r st data e' Hd He) as [_ [m' Hb']].
      rewrite Hb' in Hb. inversion Hb; subst.
      exists [], st, r, data, m'. split; [constructor|]. auto 6.
Qed.

(** Every way [fetch_all_solar_systems] can go. *)
Lemma fetch_all_shape base_url output_file net fs tr o :
  fetch_all_solar_systems base_url output_file net fs = (tr, o) ->
  (net = [] /\ tr = [Print PFetchingInitial] /\ o = Pending) \/
  (exists r0 net' e,
     net = r0 :: net' /\ fetch_json r0 = Raise e /\
     tr = [Print PFetchingInitial;
           Get (base_url ++ py "/v2/solarsystems") 100 0 r0;
           Print (PInitialError e)] /\
     o = Returned []) \/
  (exists r0 net' ev0 m0 e,
     net = r0 :: net' /\
     first_request (base_url ++ py "/v2/solarsystems") r0 []
     = (ev0, m0, Raise e) /\
     is_RequestException e = false /\
     tr = Print PFetchingInitial :: ev0 /\ o = Raised e) \/
  (exists r0 net' ev0 m0 total lim tr' st lo,
     net = r0 :: net' /\
     first_request (base_url ++ py "/v2/solarsystems") r0 []
     = (ev0, m0, Ok (total, lim)) /\
     while_loop (base_url ++ py "/v2/solarsystems") net'
       (mkState m0 total lim lim 2) = (tr', st, lo) /\
     match lo with
     | Returned _ =>
         tr = Print PFetchingInitial :: (ev0 ++ tr') ++
              [Print (PComplete (len (solar_systems_mapping st)))] ++
              save output_file (solar_systems_mapping st) fs /\
         o = Returned (solar_systems_mapping st)
     | Raised e => tr = Print PFetchingInitial :: ev0 ++ tr' /\ o = Raised e
     | Pending => tr = Print PFetchingInitial :: ev0 ++ tr' /\ o = Pending
     end).
Proof.
  unfold fetch_all_solar_systems, collect.
  destruct net as [|r0 net']; [intros H; inversion H; auto|].
  destruct (first_request (base_url ++ py "/v2/solarsystems") r0 [])
    as [[ev0 m0] [[total lim]|e]] eqn:Hf.
  - destruct (while_loop (base_url ++ py "/v2/solarsystems") net'
                (mkState m0 total lim lim 2)) as [[tr' st] lo] eqn:Hw.
    intros H. right; right; right.
    exists r0, net', ev0, m0, total, lim, tr', st, lo.
    split; [reflexivity|]. split; [exact Hf|]. split; [exact Hw|].
    destruct lo as [u|e|].
    + inversion H; subst. auto.
    + destruct (while_loop_reach _ _ _ _ _ _ Hw) as [Hne _].
      rewrite Hne in H. inversion H; subst. auto.
    + inversion H; subst. auto.
  - destruct (is_RequestException e) eqn:Hq; intros H; inversion H; subst.
    + right; left. exists r0, net', e.
      pose proof (first_request_raise _ _ _ _ _ _ Hf Hq) as Hj.
      rewrite (first_request_fail _ _ _ _ Hj) in Hf. inversion Hf; subst.
      auto.
    + right; right; left. exists r0, net', ev0, m0, e. auto 6.
Qed.

(** ** Which exceptions leave the function *)












(** ** What is written, and when *)




(** ** The order of the keys *)

Lemma insert_all_snoc kvs k v d :
  insert_all (kvs ++ [(k, v)]) d = dict_set k v (insert_all kvs d).
Proof. apply insert_all_app. Qed.

Lemma first_occurrences_snoc l k :
  first_occurrences (l ++ [k])
  = if in_dec pykey_eq_dec k l then first_occurrences l
    else first_occurrences l ++ [k].
Proof.
  unfold first_occurrences. rewrite rev_app_distr. simpl.
  destruct (in_dec pykey_eq_dec k (rev l)) as [Hin|Hout];
    destruct (in_dec pykey_eq_dec k l) as [Hin'|Hout'];
    try reflexivity.
  - exfalso. apply Hout'. apply in_rev. exact Hin.
  - exfalso. apply Hout. apply in_rev in Hin'. exact Hin'.
Qed.

Lemma keys_insert_all_first kvs :
  keys (insert_all kvs []) = first_occurrences (map fst kvs).
Proof.
  induction kvs as [|[k v] kvs IH] using rev_ind; [reflexivity|].
  rewrite insert_all_snoc, map_app.
  change (map fst [(k, v)]) with [k]. rewrite first_occurrences_snoc.
  destruct (keys_set k v (insert_all kvs [])) as [[Hin ->]|[Hout ->]];
    destruct (in_dec pykey_eq_dec k (map fst kvs)) as [Hin'|Hout'].
  - exact IH.
  - exfalso. apply Hout'. apply keys_insert_all_in in Hin.
    destruct Hin as [[]|Hin]. exact Hin.
  - exfalso. apply Hout. apply keys_insert_all_in. auto.
  - rewrite IH. reflexivity.
Qed.

(** X3.  The keys of the returned mapping are pairwise distinct and stand
    in the order in which the names were first met while fetching. *)
Theorem mapping_keys_in_fetch_order base_url output_file net fs tr m :
  fetch_all_solar_systems base_url output_file net fs = (tr, Returned m) ->
  keys m = first_occurrences (map fst (fetched tr)) /\ NoDup (keys m).
Proof.
  intros H. rewrite (fetch_all_mapping _ _ _ _ _ _ H). split.
  - apply keys_insert_all_first.
  - apply keys_insert_all_nodup. constructor.
Qed.

Lemma mapping_keys_in_fetch_order_witness :
  fetch_all_solar_systems sample_host sample_out sample_script SinkOk
  = (fst (fetch_all_solar_systems sample_host sample_out sample_script SinkOk),
     Returned sample_result) /\
  keys sample_result = [KStr (py "A"); KStr (py "B")] /\
  NoDup (keys sample_result).
Proof.
  assert (H : fetch_all_solar_systems sample_host sample_out sample_script
                SinkOk
              = (fst (fetch_all_solar_systems sample_host sample_out
                        sample_script SinkOk),
                 Returned sample_result))
    by (vm_compute; reflexivity).
  split; [exact H|].
  destruct (mapping_keys_in_fetch_order _ _ _ _ _ _ H) as [Hk Hd].
  split; [reflexivity|exact Hd].
Defined.

(** ** Pauses and batch numbers *)

Lemma sleeps_of_app a b : sleeps_of (a ++ b) = sleeps_of a ++ sleeps_of b.
Proof. apply flat_map_app. Qed.

Lemma replies_of_app a b : replies_of (a ++ b) = replies_of a ++ replies_of b.
Proof. apply flat_map_app. Qed.

Lemma lines_of_app a b : lines_of (a ++ b) = lines_of a ++ lines_of b.
Proof. apply flat_map_app. Qed.

Lemma processed_of_app a b :
  processed_of (a ++ b) = processed_of a ++ processed_of b.
Proof. apply flat_map_app. Qed.

(** What the initial request leaves in the trace, however it ends. *)
Lemma first_request_events endpoint r m ev m' res :
  first_request endpoint r m = (ev, m', res) ->
  replies_of ev = [r] /\ sleeps_of ev = [] /\ processed_of ev = [] /\
  Forall (fun l => main_line l = false) (lines_of ev) /\
  forall lim, Forall (batch_line_ok lim) (lines_of ev).
Proof.
  pose proof (first_request_cases endpoint r m) as C.
  destruct (fetch_json r) as [data|].
  2:{ rewrite C. intros H; inversion H; subst; simpl.
      repeat split; repeat constructor. }
  destruct (metadata_of data) as [[t l]|].
  2:{ rewrite C. intros H; inversion H; subst; simpl.
      repeat split; repeat constructor. }
  destruct (numbers t l) as [[[total lim] estimate]|].
  2:{ rewrite C. intros H; inversion H; subst; simpl.
      repeat split; repeat constructor. }
  destruct (page_items r) as [kvs|]; [|destruct C as [m'' C]];
    rewrite C; intros H; inversion H; subst; simpl;
    repeat split; repeat constructor.
Qed.

(** What holds at the head of the loop besides [loop_invariant]. *)
Lemma reach_bookkeeping endpoint s0 tr st :
  reach endpoint s0 tr st ->
  batch_number st
  = batch_number s0 + Z.of_nat (List.length (fetched_offsets tr)) /\
  processed_of tr
  = map (fun i => batch_number s0 + Z.of_nat i)
        (seq 0 (List.length (fetched_offsets tr))) /\
  sleeps_of tr = map pause_after (replies_of tr) /\
  Forall (fun l => main_line l = false) (lines_of tr) /\
  (offset s0 = (batch_number s0 - 1) * limit s0 ->
   offset st = (batch_number st - 1) * limit s0 /\
   Forall (batch_line_ok (limit s0)) (lines_of tr)).
Proof.
  induction 1 as [|tr st r ev st' Hr IH Hlt Hb].
  - simpl. split; [lia|]. split; [reflexivity|]. split; [reflexivity|].
    split; [constructor|]. intros H0. split; [exact H0|constructor].
  - destruct IH as (Ib & Ip & Is & Im & Io).
    destruct (reach_invariant _ _ _ _ Hr) as [_ Il _ _ _ _].
    rewrite fetched_offsets_app, processed_of_app, sleeps_of_app,
      replies_of_app, lines_of_app, map_app, length_app.
    destruct (loop_body_ok _ _ _ _ _ Hb)
      as [(e & He & -> & ->)|(kvs & Hk & -> & ->)].
    + pose proof (good_false_of_failure _ _ He) as Hg.
      simpl. unfold pause_after. rewrite Hg. simpl.
      rewrite !app_nil_r, Nat.add_0_r.
      split; [exact Ib|]. split; [exact Ip|].
      split; [rewrite Is; reflexivity|].
      split; [apply Forall_app; split; [exact Im|repeat constructor]|].
      intros H0. destruct (Io H0) as [Ho Hl]. split; [exact Ho|].
      apply Forall_app. split; [exact Hl|].
      repeat constructor. simpl. exact Ho.
    + pose proof (good_of_page _ _ Hk) as Hg.
      simpl. unfold pause_after. rewrite Hg. simpl.
      split; [rewrite Ib; lia|].
      split.
      { rewrite Ip, seq_app, map_app. simpl. rewrite Ib. reflexivity. }
      split; [rewrite Is; reflexivity|].
      split; [apply Forall_app; split; [exact Im|repeat constructor]|].
      intros H0. destruct (Io H0) as [Ho Hl]. split; [rewrite Il; lia|].
      apply Forall_app. split; [exact Hl|].
      repeat constructor. simpl. exact Ho.
Qed.

Lemma save_events output_file m fs :
  replies_of (save output_file m fs) = [] /\
  sleeps_of (save output_file m fs) = [] /\
  processed_of (save output_file m fs) = [] /\
  Forall (fun l => main_line l = false) (lines_of (save output_file m fs)) /\
  forall lim, Forall (batch_line_ok lim) (lines_of (save output_file m fs)).
Proof. destruct fs; simpl; repeat split; repeat constructor. Qed.

(** X4.  A run that does not raise pauses once after every request but the
    initial one: 100 ms when the page was fetched, 5 s when the request
    failed. *)
Theorem pause_after_every_later_request
    base_url output_file net fs tr o :
  fetch_all_solar_systems base_url output_file net fs = (tr, o) ->
  (forall e, o <> Raised e) ->
  sleeps_of tr = map pause_after (tl (replies_of tr)).
Proof.
  intros H Ho. destruct (fetch_all_shape _ _ _ _ _ _ H)
    as [(-> & -> & ->)
       |[(r0 & net' & e' & -> & He & -> & ->)
        |[(r0 & net' & ev0 & m0 & e' & -> & Hf & Hne & -> & ->)
         |(r0 & net' & ev0 & m0 & total & lim & tr' & st & lo
           & -> & Hf & Hw & Hlo)]]]; try reflexivity.
  - exfalso. exact (Ho e' eq_refl).
  - destruct (first_request_events _ _ _ _ _ _ Hf) as (Hr0 & Hs0 & _).
    pose proof (while_loop_reach _ _ _ _ _ _ Hw) as Hr.
    assert (Hs : lo <> Raised ZeroDivisionError ->
                 (forall e, lo <> Raised e) ->
                 sleeps_of tr' = map pause_after (replies_of tr')).
    { intros _ Hlo'. destruct lo as [u|e|].
      - destruct Hr as [Hr _]. apply (reach_bookkeeping _ _ _ _ Hr).
      - exfalso. exact (Hlo' e eq_refl).
      - destruct Hr as [Hr _]. apply (reach_bookkeeping _ _ _ _ Hr). }
    destruct lo as [u|e|]; destruct Hlo as [-> ->].
    + destruct (save_events output_file (solar_systems_mapping st) fs)
        as (Hrs & Hss & _).
      change (Print PFetchingInitial :: (ev0 ++ tr') ++
              [Print (PComplete (len (solar_systems_mapping st)))] ++
              save output_file (solar_systems_mapping st) fs)
        with ([Print PFetchingInitial] ++ (ev0 ++ tr') ++
              [Print (PComplete (len (solar_systems_mapping st)))] ++
              save output_file (solar_systems_mapping st) fs).
      rewrite !sleeps_of_app, !replies_of_app, Hr0, Hs0, Hrs, Hss.
      simpl. rewrite !app_nil_r. apply Hs; discriminate.
    + exfalso. exact (Ho e eq_refl).
    + change (Print PFetchingInitial :: ev0 ++ tr')
        with ([Print PFetchingInitial] ++ ev0 ++ tr').
      rewrite !sleeps_of_app, !replies_of_app, Hr0, Hs0.
      simpl. apply Hs; discriminate.
Qed.

Lemma pause_after_every_later_request_witness :
  fetch_all_solar_systems sample_host sample_out sample_script SinkOk
  = (fst (fetch_all_solar_systems sample_host sample_out sample_script SinkOk),
     Returned sample_result) /\
  sleeps_of (fst (fetch_all_solar_systems sample_host sample_out
                    sample_script SinkOk)) = [5000; 100].
Proof.
  assert (H : fetch_all_solar_systems sample_host sample_out sample_script
                SinkOk
              = (fst (fetch_all_solar_systems sample_host sample_out
                        sample_script SinkOk),
                 Returned sample_result))
    by (vm_compute; reflexivity).
  split; [exact H|].
  rewrite (pause_after_every_later_request _ _ _ _ _ _ H)
    by discriminate.
  vm_compute. reflexivity.
Defined.

(** X5.  Batches are numbered from 2 after the initial request: every line
    that announces a batch names the offset [(batch - 1) * limit], for the
    limit the first response reported, and the batches reported as
    processed are 2, 3, ... without a gap, however the run ends. *)
Theorem batch_numbers_follow_offsets
    base_url output_file r0 net fs tr o total lim :
  fetch_all_solar_systems base_url output_file (r0 :: net) fs = (tr, o) ->
  reported r0 = Ok (total, lim) ->
  Forall (batch_line_ok lim) (lines_of tr) /\
  processed_of tr
  = map (fun i => 2 + Z.of_nat i) (seq 0 (List.length (processed_of tr))).
Proof.
  intros H Hrep. destruct (fetch_all_shape _ _ _ _ _ _ H)
    as [(Hn & _)
       |[(r1 & net' & e' & Hn & He & -> & ->)
        |[(r1 & net' & ev0 & m0 & e' & Hn & Hf & Hne & -> & ->)
         |(r1 & net' & ev0 & m0 & total' & lim' & tr' & st & lo
           & Hn & Hf & Hw & Hlo)]]]; try discriminate.
  - simpl. split; repeat constructor.
  - destruct (first_request_events _ _ _ _ _ _ Hf)
      as (_ & _ & Hp0 & _ & Hb0).
    change (Print PFetchingInitial :: ev0)
      with ([Print PFetchingInitial] ++ ev0).
    rewrite lines_of_app, processed_of_app, Hp0. simpl.
    split; [constructor; [exact I|apply Hb0]|reflexivity].
  - inversion Hn; subst r1 net'.
    destruct (first_request_ok _ _ _ _ _ _ _ Hf) as (Hrep' & _).
    rewrite Hrep in Hrep'. inversion Hrep'; subst total' lim'.
    destruct (first_request_events _ _ _ _ _ _ Hf)
      as (_ & _ & Hp0 & _ & Hb0).
    assert (Hloop : Forall (batch_line_ok lim) (lines_of tr') /\
                    processed_of tr'
                    = map (fun i => 2 + Z.of_nat i)
                          (seq 0 (List.length (processed_of tr')))).
    { assert (Hreach : forall tr1 st1,
                reach (base_url ++ py "/v2/solarsystems")
                  (mkState m0 total lim lim 2) tr1 st1 ->
                offset st1 = (batch_number st1 - 1) * lim /\
                Forall (batch_line_ok lim) (lines_of tr1) /\
                processed_of tr1
                = map (fun i => 2 + Z.of_nat i)
                      (seq 0 (List.length (processed_of tr1)))).
      { intros tr1 st1 Hr.
        destruct (reach_bookkeeping _ _ _ _ Hr) as (_ & Hp & _ & _ & Hb).
        cbn [offset batch_number limit] in Hp, Hb.
        destruct (Hb ltac:(lia)) as [Ho Hl].
        split; [exact Ho|]. split; [exact Hl|].
        rewrite Hp at 2. rewrite length_map, length_seq. exact Hp. }
      pose proof (while_loop_reach _ _ _ _ _ _ Hw) as Hr.
      destruct lo as [u|e|].
      - destruct Hr as [Hr _]. apply (Hreach _ _ Hr).
      - destruct (while_loop_raised _ _ _ _ _ _ Hw)
          as (tr1 & s1 & r & data & m' & Hr1 & _ & _ & _ & -> & _).
        destruct (Hreach _ _ Hr1) as (Ho & Hl & Hp).
        rewrite lines_of_app, processed_of_app. simpl.
        rewrite app_nil_r. split; [|exact Hp].
        apply Forall_app. split; [exact Hl|].
        repeat constructor. simpl. exact Ho.
      - destruct Hr as [Hr _]. apply (Hreach _ _ Hr). }
    destruct Hloop as [Hl Hp].
    destruct lo as [u|e|]; destruct Hlo as [-> _].
    + destruct (save_events output_file (solar_systems_mapping st) fs)
        as (_ & _ & Hps & _ & Hbs).
      change (Print PFetchingInitial :: (ev0 ++ tr') ++
              [Print (PComplete (len (solar_systems_mapping st)))] ++
              save output_file (solar_systems_mapping st) fs)
        with ([Print PFetchingInitial] ++ (ev0 ++ tr') ++
              [Print (PComplete (len (solar_systems_mapping st)))] ++
              save output_file (solar_systems_mapping st) fs).
      rewrite !lines_of_app, !processed_of_app, Hp0, Hps. simpl.
      rewrite app_nil_r. split; [|exact Hp].
      constructor; [exact I|]. apply Forall_app. split.
      * apply Forall_app. split; [apply Hb0|exact Hl].
      * constructor; [exact I|apply Hbs].
    + change (Print PFetchingInitial :: ev0 ++ tr')
        with ([Print PFetchingInitial] ++ ev0 ++ tr').
      rewrite !lines_of_app, !processed_of_app, Hp0. simpl.
      split; [|exact Hp].
      constructor; [exact I|]. apply Forall_app. split; [apply Hb0|exact Hl].
    + change (Print PFetchingInitial :: ev0 ++ tr')
        with ([Print PFetchingInitial] ++ ev0 ++ tr').
      rewrite !lines_of_app, !processed_of_app, Hp0. simpl.
      split; [|exact Hp].
      constructor; [exact I|]. apply Forall_app. split; [apply Hb0|exact Hl].
Qed.

Lemma batch_numbers_follow_offsets_witness :
  fetch_all_solar_systems sample_host sample_out sample_script SinkOk
  = (fst (fetch_all_solar_systems sample_host sample_out sample_script SinkOk),
     Returned sample_result) /\
  reported sample_page = Ok (3, 2) /\
  processed_of (fst (fetch_all_solar_systems sample_host sample_out
                       sample_script SinkOk)) = [2].
Proof.
  assert (H : fetch_all_solar_systems sample_host sample_out sample_script
                SinkOk
              = (fst (fetch_all_solar_systems sample_host sample_out
                        sample_script SinkOk),
                 Returned sample_result))
    by (vm_compute; reflexivity).
  assert (Hr : reported sample_page = Ok (3, 2)) by reflexivity.
  split; [exact H|]. split; [exact Hr|].
  destruct (batch_numbers_follow_offsets _ _ _ _ _ _ _ _ _ H Hr) as [_ Hp].
  rewrite Hp. vm_compute. reflexivity.
Defined.

(** ** Longer scripts *)

(** A loop that waits for a reply goes on from where it stands when more
    replies come. *)
Lemma while_loop_continues endpoint more : forall pre st tr1 st1,
  while_loop endpoint pre st = (tr1, st1, Pending) ->
  while_loop endpoint (pre ++ more) st
  = let '(tr2, st2, o) := while_loop endpoint more st1 in
    (tr1 ++ tr2, st2, o).
Proof.
  induction pre as [|r pre IH]; intros st tr1 st1; simpl.
  - destruct (Z.ltb_spec (offset st) (total_systems st)) as [Hlt|Hge];
      [|discriminate].
    intros H; inversion H; subst.
    destruct (while_loop endpoint more st1) as [[tr2 st2] o]. reflexivity.
  - destruct (Z.ltb_spec (offset st) (total_systems st)) as [Hlt|Hge];
      [|discriminate].
    destruct (loop_body endpoint r st) as [[ev s'] [[]|e]]; [|discriminate].
    destruct (while_loop endpoint pre s') as [[ev' s2] o'] eqn:Hw.
    intros H; inversion H; subst. rewrite (IH _ _ _ Hw).
    destruct (while_loop endpoint more st1) as [[tr2 st2] o].
    rewrite app_assoc. reflexivity.
Qed.

Lemma fetch_all_of_loop base_url output_file r0 net fs ev0 m0 total lim
    tr' st lo :
  first_request (base_url ++ py "/v2/solarsystems") r0 []
  = (ev0, m0, Ok (total, lim)) ->
  while_loop (base_url ++ py "/v2/solarsystems") net
    (mkState m0 total lim lim 2) = (tr', st, lo) ->
  fetch_all_solar_systems base_url output_file (r0 :: net) fs
  = match lo with
    | Returned _ =>
        (Print PFetchingInitial :: (ev0 ++ tr') ++
           [Print (PComplete (len (solar_systems_mapping st)))] ++
           save output_file (solar_systems_mapping st) fs,
         Returned (solar_systems_mapping st))
    | Raised e => (Print PFetchingInitial :: ev0 ++ tr', Raised e)
    | Pending => (Print PFetchingInitial :: ev0 ++ tr', Pending)
    end.
Proof.
  intros Hf Hw. unfold fetch_all_solar_systems, collect. rewrite Hf, Hw.
  destruct lo as [u|e|]; try reflexivity.
  destruct (while_loop_reach _ _ _ _ _ _ Hw) as [Hne _]. rewrite Hne.
  reflexivity.
Qed.

Lemma fetch_all_pending base_url output_file r0 pre fs tr1 :
  fetch_all_solar_systems base_url output_file (r0 :: pre) fs
  = (tr1, Pending) ->
  exists ev0 m0 total lim trA st,
    first_request (base_url ++ py "/v2/solarsystems") r0 []
    = (ev0, m0, Ok (total, lim)) /\
    while_loop (base_url ++ py "/v2/solarsystems") pre
      (mkState m0 total lim lim 2) = (trA, st, Pending) /\
    tr1 = Print PFetchingInitial :: ev0 ++ trA /\
    offset st < total_systems st /\
    existsb wrote_file tr1 = false.
Proof.
  intros H. destruct (fetch_all_shape _ _ _ _ _ _ H)
    as [(Hn & _)
       |[(r1 & net' & e' & _ & _ & _ & Ho)
        |[(r1 & net' & ev0 & m0 & e' & _ & _ & _ & _ & Ho)
         |(r1 & net' & ev0 & m0 & total & lim & tr' & st & lo
           & Hn & Hf & Hw & Hlo)]]]; try discriminate.
  inversion Hn; subst r1 net'.
  destruct lo as [u|e|]; destruct Hlo as [-> Ho]; try discriminate.
  exists ev0, m0, total, lim, tr', st.
  destruct (while_loop_reach _ _ _ _ _ _ Hw) as (Hr & Hlt & _).
  destruct (first_request_trace _ _ _ _ _ _ Hf) as [_ Hnw0].
  destruct (reach_invariant _ _ _ _ Hr) as [_ _ _ _ _ Hnw].
  repeat split; auto.
  simpl. rewrite existsb_app, Hnw0, Hnw. reflexivity.
Qed.

(** X6.  A later page that is fetched but cannot be processed is not
    retried: the run raises the exception at once, without a pause, and
    nothing of what it had collected is written. *)
Theorem later_page_error_aborts
    base_url output_file r0 pre bad post fs tr1 data e :
  fetch_all_solar_systems base_url output_file (r0 :: pre) fs
  = (tr1, Pending) ->
  fetch_json bad = Ok data ->
  page_items bad = Raise e ->
  exists tr2,
    fetch_all_solar_systems base_url output_file
      (r0 :: pre ++ bad :: post) fs = (tr1 ++ tr2, Raised e) /\
    replies_of tr2 = [bad] /\ sleeps_of tr2 = [] /\
    existsb wrote_file (tr1 ++ tr2) = false.
Proof.
  intros H Hd Hp.
  destruct (fetch_all_pending _ _ _ _ _ _ H)
    as (ev0 & m0 & total & lim & trA & st & Hf & Hw & -> & Hlt & Hnw).
  destruct (loop_body_abort (base_url ++ py "/v2/solarsystems") bad st
              data e Hd Hp) as [Hne [m' Hb]].
  pose proof (while_loop_continues (base_url ++ py "/v2/solarsystems")
                (bad :: post) _ _ _ _ Hw) as Hc.
  simpl in Hc.
  destruct (Z.ltb_spec (offset st) (total_systems st)); [|lia].
  rewrite Hb in Hc.
  rewrite (fetch_all_of_loop _ _ _ _ _ _ _ _ _ _ _ _ Hf Hc).
  eexists. split.
  - simpl. rewrite <- app_assoc. reflexivity.
  - split; [reflexivity|]. split; [reflexivity|].
    rewrite existsb_app, Hnw. reflexivity.
Qed.

Lemma later_page_error_aborts_witness :
  fetch_all_solar_systems sample_host sample_out [sample_page; Unreachable]
    SinkOk
  = (fst (fetch_all_solar_systems sample_host sample_out
            [sample_page; Unreachable] SinkOk), Pending) /\
  fetch_json (Response 200 (Some (JObj []))) = Ok (JObj []) /\
  page_items (Response 200 (Some (JObj []))) = Raise (KeyError (py "data")) /\
  snd (fetch_all_solar_systems sample_host sample_out
         (sample_page :: [Unreachable]
            ++ Response 200 (Some (JObj [])) :: [sample_page]) SinkOk)
  = Raised (KeyError (py "data")).
Proof.
  assert (H : fetch_all_solar_systems sample_host sample_out
                [sample_page; Unreachable] SinkOk
              = (fst (fetch_all_solar_systems sample_host sample_out
                        [sample_page; Unreachable] SinkOk), Pending))
    by (vm_compute; reflexivity).
  assert (Hd : fetch_json (Response 200 (Some (JObj []))) = Ok (JObj []))
    by reflexivity.
  assert (Hp : page_items (Response 200 (Some (JObj [])))
               = Raise (KeyError (py "data"))) by reflexivity.
  split; [exact H|]. split; [exact Hd|]. split; [exact Hp|].
  destruct (later_page_error_aborts sample_host sample_out sample_page
              [Unreachable] (Response 200 (Some (JObj []))) [sample_page]
              SinkOk _ _ _ H Hd Hp) as (tr2 & Hrun & _).
  rewrite Hrun. reflexivity.
Defined.

Lemma while_loop_failures endpoint : forall fails st,
  offset st < total_systems st ->
  forallb failing fails = true ->
  exists tr2,
    while_loop endpoint fails st = (tr2, st, Pending) /\
    requests_of tr2 = repeat (limit st, offset st) (List.length fails) /\
    sleeps_of tr2 = repeat 5000 (List.length fails) /\
    fetched tr2 = [].
Proof.
  induction fails as [|r fails IH]; intros st Hlt Hall; simpl;
    destruct (Z.ltb_spec (offset st) (total_systems st)); try lia.
  - exists []. auto.
  - simpl in Hall. apply andb_true_iff in Hall. destruct Hall as [Hr Hall].
    unfold failing in Hr. destruct (fetch_json r) as [|e] eqn:He;
      [discriminate|].
    rewrite (loop_body_retry _ _ _ _ He).
    destruct (IH st Hlt Hall) as (tr2 & Hw & Hq & Hs & Hf).
    rewrite Hw. eexists. split; [reflexivity|].
    rewrite requests_of_app, sleeps_of_app, fetched_app, Hq, Hs, Hf.
    simpl. rewrite (page_items_of_failure _ _ He). auto.
Qed.

(** X7.  While the requests for a later page fail, whatever the failure,
    the run asks for the same page again after 5 s each time, inserts
    nothing, and never gives up. *)
Theorem failing_page_is_retried_forever
    base_url output_file r0 pre fails fs tr1 :
  fetch_all_solar_systems base_url output_file (r0 :: pre) fs
  = (tr1, Pending) ->
  forallb failing fails = true ->
  exists tr2 lim off,
    fetch_all_solar_systems base_url output_file (r0 :: pre ++ fails) fs
    = (tr1 ++ tr2, Pending) /\
    requests_of tr2 = repeat (lim, off) (List.length fails) /\
    sleeps_of tr2 = repeat 5000 (List.length fails) /\
    fetched tr2 = [].
Proof.
  intros H Hall.
  destruct (fetch_all_pending _ _ _ _ _ _ H)
    as (ev0 & m0 & total & lim & trA & st & Hf & Hw & -> & Hlt & _).
  destruct (while_loop_failures (base_url ++ py "/v2/solarsystems")
              fails st Hlt Hall) as (tr2 & Hw2 & Hq & Hs & Hfe).
  pose proof (while_loop_continues (base_url ++ py "/v2/solarsystems")
                fails _ _ _ _ Hw) as Hc.
  rewrite Hw2 in Hc.
  rewrite (fetch_all_of_loop _ _ _ _ _ _ _ _ _ _ _ _ Hf Hc).
  exists tr2, (limit st), (offset st). split; [|auto].
  simpl. rewrite <- app_assoc. reflexivity.
Qed.

Lemma failing_page_is_retried_forever_witness :
  fetch_all_solar_systems sample_host sample_out [sample_page] SinkOk
  = (fst (fetch_all_solar_systems sample_host sample_out [sample_page]
            SinkOk), Pending) /\
  forallb failing [Unreachable; Response 404 None; Response 200 None] = true /\
  snd (fetch_all_solar_systems sample_host sample_out
         (sample_page :: [] ++
            [Unreachable; Response 404 None; Response 200 None])
         SinkOk)
  = Pending.
Proof.
  assert (H : fetch_all_solar_systems sample_host sample_out [sample_page]
                SinkOk
              = (fst (fetch_all_solar_systems sample_host sample_out
                        [sample_page] SinkOk), Pending))
    by (vm_compute; reflexivity).
  assert (Hall : forallb failing
                   [Unreachable; Response 404 None; Response 200 None]
                 = true) by reflexivity.
  split; [exact H|]. split; [exact Hall|].
  destruct (failing_page_is_retried_forever sample_host sample_out
              sample_page [] _ SinkOk _ H Hall)
    as (tr2 & lim & off & Hrun & _).
  rewrite Hrun. reflexivity.
Defined.

(** ** main *)















(** ** The shape of a page *)



(** ** A collection that fits in one page *)



(** ** Processing a batch twice *)

Lemma dict_get_none k d : ~ In k (keys d) -> dict_get k d = None.
Proof.
  induction d as [|[k' v'] d IH]; simpl; intros Hout; [reflexivity|].
  destruct (pykey_eq_dec k k') as [->|_]; [tauto|]. apply IH. tauto.
Qed.

(** A dict is its keys, in order, and what it holds under each. *)
Lemma dict_ext : forall d1 d2,
  NoDup (keys d1) ->
  keys d1 = keys d2 ->
  (forall k, dict_get k d1 = dict_get k d2) ->
  d1 = d2.
Proof.
  induction d1 as [|[k1 v1] d1 IH]; intros [|[k2 v2] d2] Hnd Hk Hg;
    try discriminate; [reflexivity|].
  simpl in Hk. injection Hk as -> Hk. inversion Hnd as [|? ? Hout Hnd']; subst.
  pose proof (Hg k2) as Hg2. simpl in Hg2.
  destruct (pykey_eq_dec k2 k2) as [_|Hne]; [|congruence].
  injection Hg2 as ->. f_equal. apply IH; [exact Hnd'|exact Hk|].
  intros k. destruct (pykey_eq_dec k k2) as [->|Hne].
  - rewrite !dict_get_none; [reflexivity| |exact Hout].
    unfold keys in *. rewrite <- Hk. exact Hout.
  - specialize (Hg k). simpl in Hg.
    destruct (pykey_eq_dec k k2); [contradiction|exact Hg].
Qed.

Lemma keys_insert_all_known kvs : forall d,
  (forall k, In k (map fst kvs) -> In k (keys d)) ->
  keys (insert_all kvs d) = keys d.
Proof.
  induction kvs as [|[k v] kvs IH]; intros d Hin; [reflexivity|].
  simpl in Hin. unfold insert_all in *. simpl.
  destruct (keys_set k v d) as [[_ Hk]|[Hout _]].
  - rewrite IH; [exact Hk|]. intros k' Hk'. unfold keys in *.
    rewrite Hk. auto.
  - exfalso. apply Hout. auto.
Qed.

Lemma in_last_split (kvs : list (pykey * json)) k :
  In k (map fst kvs) ->
  exists pre v post,
    kvs = pre ++ (k, v) :: post /\ ~ In k (map fst post).
Proof.
  induction kvs as [|[k' v'] kvs IH]; simpl; [tauto|].
  intros Hin. destruct (in_dec pykey_eq_dec k (map fst kvs)) as [Hl|Hl].
  - destruct (IH Hl) as (pre & v & post & -> & Hout).
    exists ((k', v') :: pre), v, post. auto.
  - destruct Hin as [->|Hin]; [|contradiction].
    exists [], v', kvs. auto.
Qed.

Lemma insert_all_idempotent kvs d :
  NoDup (keys d) ->
  insert_all kvs (insert_all kvs d) = insert_all kvs d.
Proof.
  intros Hnd. apply dict_ext.
  - apply keys_insert_all_nodup, keys_insert_all_nodup, Hnd.
  - apply keys_insert_all_known. intros k Hk.
    apply keys_insert_all_in. auto.
  - intros k. destruct (in_dec pykey_eq_dec k (map fst kvs)) as [Hin|Hout].
    + destruct (in_last_split _ _ Hin) as (pre & v & post & -> & Hlast).
      rewrite !dict_get_insert_all_last by exact Hlast. reflexivity.
    + apply dict_get_insert_all_out. exact Hout.
Qed.

(** X12.  Processing a batch a second time changes nothing: the mapping
    keeps its keys, their order and their values. *)
Theorem reprocessing_a_batch_changes_nothing systems m m1 :
  NoDup (keys m) ->
  process systems m = ([], m1, Ok tt) ->
  process systems m1 = ([], m1, Ok tt).
Proof.
  intros Hnd Hp. destruct (items systems) as [kvs|e] eqn:Ei.
  - rewrite (process_ok _ _ _ Ei) in Hp. inversion Hp; subst m1.
    rewrite (process_ok _ _ _ Ei), (insert_all_idempotent _ _ Hnd).
    reflexivity.
  - destruct (process_raise _ m _ Ei) as [m' Hr]. rewrite Hr in Hp.
    discriminate.
Qed.

Lemma reprocessing_a_batch_changes_nothing_witness :
  NoDup (keys [(KStr (py "B"), JInt 2)]) /\
  process [system "A" 1; system "B" 5; system "A" 7]
    [(KStr (py "B"), JInt 2)]
  = ([], [(KStr (py "B"), JInt 5); (KStr (py "A"), JInt 7)], Ok tt) /\
  process [system "A" 1; system "B" 5; system "A" 7]
    [(KStr (py "B"), JInt 5); (KStr (py "A"), JInt 7)]
  = ([], [(KStr (py "B"), JInt 5); (KStr (py "A"), JInt 7)], Ok tt).
Proof.
  assert (Hnd : NoDup (keys [(KStr (py "B"), JInt 2)])).
  { repeat constructor. simpl. tauto. }
  assert (Hp : process [system "A" 1; system "B" 5; system "A" 7]
                 [(KStr (py "B"), JInt 2)]
               = ([], [(KStr (py "B"), JInt 5); (KStr (py "A"), JInt 7)],
                  Ok tt)) by (vm_compute; reflexivity).
  split; [exact Hnd|]. split; [exact Hp|].
  apply (reprocessing_a_batch_changes_nothing _ _ _ Hnd Hp).
Defined.
